(** * Chatiapp: the request admission pipeline of [src/app.ts]

  A shallow embedding of the Express application assembled in
  [src/app.ts]: the middleware stack in registration order, the rate
  limiter and its rejection handler, the CORS options shared with the
  socket server, and the final error-handling middleware.

  JavaScript numbers that occur here are small integers and are kept in
  [Z]; strings are [string]; the limiter's per-key table is a
  [gmap string RateWindow]; console output and sent responses are
  recorded, in order, in a trace of events. *)

From Stdlib Require Import ZArith String Ascii List Lia Bool.
From stdpp Require Import base option list strings gmap pretty.

Open Scope Z_scope.

(** ** JavaScript helpers *)

Module Js.

(** [a || b] for [a : string | null]: the empty string is falsy. *)
Definition or (a : option string) (b : string) : string :=
  match a with
  | Some s => if String.eqb s "" then b else s
  | None => b
  end.

(** The line feed of a template literal. *)
Definition nl : string := String (ascii_of_nat 10) EmptyString.

Definition lower_ascii (a : ascii) : ascii :=
  let n := nat_of_ascii a in
  if ((65 <=? n) && (n <=? 90))%nat then ascii_of_nat (n + 32) else a.

Fixpoint toLowerCase (s : string) : string :=
  match s with
  | EmptyString => EmptyString
  | String a r => String (lower_ascii a) (toLowerCase r)
  end.

(** [s.includes(t)]. *)
Fixpoint includes (s t : string) : bool :=
  String.prefix t s ||
  match s with
  | EmptyString => false
  | String _ r => includes r t
  end.

(** What the runtime decides and the program only reads. *)
Record Runtime := {
  (** [String(a / b)] when the quotient is not an integer (a floating
      point numeral) *)
  fraction_text : Z -> Z -> string;
  (** the [stack] property given to an error built with this message *)
  stack_trace : string -> string
}.

(** [`${a / b}`]: an integral quotient prints as its decimal numeral. *)
Definition quotient_text (rt : Runtime) (a b : Z) : string :=
  if (negb (b =? 0)) && (a mod b =? 0) then pretty (a / b)
  else fraction_text rt a b.

End Js.

(** ** Errors ([./core/ApiError]) *)

Module ApiError.

(** Modelled from the spec: the enumeration [ErrorType] of
    [./core/ApiError] is the closed set of kinds of section 4.3. *)
Inductive ErrorType :=
| BAD_REQUEST | UNAUTHORIZED | FORBIDDEN | NOT_FOUND | RATE_LIMIT | INTERNAL.

#[export] Instance ErrorType_eq_dec : EqDecision ErrorType.
Proof. solve_decision. Defined.

(** Modelled from the spec: the status column of the table of
    section 4.3. *)
Definition httpStatus (k : ErrorType) : Z :=
  match k with
  | BAD_REQUEST => 400
  | UNAUTHORIZED => 401
  | FORBIDDEN => 403
  | NOT_FOUND => 404
  | RATE_LIMIT => 429
  | INTERNAL => 500
  end.

(** The two properties of a JavaScript [Error] the program reads. *)
Record Info := { message : string; stack : string }.

(** A thrown value: an instance of [ApiError], which carries its
    [type], or anything else. *)
Inductive Error :=
| Typed (type : ErrorType) (info : Info)
| Untyped (info : Info).

Definition instanceofApiError (e : Error) : bool :=
  match e with Typed _ _ => true | Untyped _ => false end.

End ApiError.

(** ** The rate limiter ([express-rate-limit]) *)

Module RateLimit.

Record Options := {
  windowMs : Z;
  max : Z;
  standardHeaders : bool;
  legacyHeaders : bool
}.

(** The record of section 3: one per key. *)
Record RateWindow := { count : Z; windowStart : Z }.

Definition fresh (now : Z) : RateWindow :=
  {| count := 1; windowStart := now |}.

(** A window is over once its duration has passed; a clock that went
    backwards ([now < windowStart]) also ends it. *)
Definition expired (o : Options) (now : Z) (w : RateWindow) : bool :=
  (now <? windowStart w) || (windowStart w + windowMs o <=? now).

Inductive Decision := Allowed | Rejected.

#[export] Instance Decision_eq_dec : EqDecision Decision.
Proof. solve_decision. Defined.

(** Modelled from the spec: the counting done inside
    [express-rate-limit], which [src/app.ts] only configures, follows
    the algorithm of section 4.2: no window or an expired one starts a
    new window with count 1 and admits; otherwise the count is
    incremented and the request admitted when [count <= max]. *)
Definition step (o : Options) (now : Z) (prev : option RateWindow)
    : Decision * RateWindow :=
  match prev with
  | None => (Allowed, fresh now)
  | Some w =>
      if expired o now w then (Allowed, fresh now)
      else
        let w' := {| count := count w + 1; windowStart := windowStart w |} in
        (if count w' <=? max o then Allowed else Rejected, w')
  end.

Definition admit_request (o : Options) (now : Z) (k : string)
    (st : gmap string RateWindow) : Decision * gmap string RateWindow :=
  let '(d, w) := step o now (st !! k) in
  (d, <[k := w]> st).

(** [n] requests of one key at the given instants, oldest first: the
    decisions, and the table afterwards. *)
Fixpoint admit_all (o : Options) (k : string) (times : list Z)
    (st : gmap string RateWindow) : list Decision * gmap string RateWindow :=
  match times with
  | [] => ([], st)
  | t :: rest =>
      let '(d, st1) := admit_request o t k st in
      let '(ds, st2) := admit_all o k rest st1 in
      (d :: ds, st2)
  end.

(** Seconds until the window of [w] closes, rounded up. *)
Definition resetSeconds (o : Options) (now : Z) (w : RateWindow) : Z :=
  Z.max 0 ((windowStart w + windowMs o - now + 999) / 1000).

Definition remaining (o : Options) (w : RateWindow) : Z :=
  Z.max 0 (max o - count w).

(** The headers written on the response before the decision is acted
    on: the [RateLimit-*] triple when [standardHeaders] is set, the
    [X-RateLimit-*] triple when [legacyHeaders] is set. *)
Definition standard_names : list string :=
  ["RateLimit-Limit"; "RateLimit-Remaining"; "RateLimit-Reset"].

Definition legacy_names : list string :=
  ["X-RateLimit-Limit"; "X-RateLimit-Remaining"; "X-RateLimit-Reset"].

Definition header_values (o : Options) (now : Z) (w : RateWindow) : list string :=
  [pretty (max o); pretty (remaining o w); pretty (resetSeconds o now w)].

Definition set_all (names values : list string) (h : gmap string string)
    : gmap string string :=
  foldr (fun nv acc => <[nv.1 := nv.2]> acc) h (zip names values).

Definition setHeaders (o : Options) (now : Z) (w : RateWindow)
    (h : gmap string string) : gmap string string :=
  let h1 := if standardHeaders o
            then set_all standard_names (header_values o now w) h else h in
  if legacyHeaders o
  then set_all legacy_names (header_values o now w) h1 else h1.

End RateLimit.

(** ** The Express model *)

Module Express.

Import ApiError.

Inductive Method := GET | HEAD | POST | PUT | PATCH | DELETE | OPTIONS.

#[export] Instance Method_eq_dec : EqDecision Method.
Proof. solve_decision. Defined.

Definition method_name (m : Method) : string :=
  match m with
  | GET => "GET" | HEAD => "HEAD" | POST => "POST" | PUT => "PUT"
  | PATCH => "PATCH" | DELETE => "DELETE" | OPTIONS => "OPTIONS"
  end.

(** What the body parsers look at: the media type of the body. *)
Inductive BodyType := NoBody | JsonBody | UrlencodedBody | OtherBody.

#[export] Instance BodyType_eq_dec : EqDecision BodyType.
Proof. solve_decision. Defined.

Record Request := {
  method : Method;
  path : string;          (* the path name, without the query string *)
  originalUrl : string;
  ip : string;            (* [req.ip] *)
  bodyType : BodyType;
  bodyLength : Z;         (* in bytes *)
  bodySyntaxError : option string
    (* the complaint of the parser of its type, if it has one *)
}.

(** A response body: text given to [res.send], or the error envelope
    [{kind, message}] of section 6. *)
Inductive Body :=
| Text (s : string)
| Envelope (kind : ErrorType) (message : string).

Record Response := {
  status : Z;
  body : Body;
  headers : gmap string string
}.

(** The handler groups of the route table. *)
Inductive Group := Root | Health | Auth | Chat | Messages | Static.

#[export] Instance Group_eq_dec : EqDecision Group.
Proof. solve_decision. Defined.

Inductive Event :=
| ConsoleError (line : string)   (* [console.error] *)
| Enter (g : Group)              (* a route handler is invoked *)
| Send (r : Response).           (* the response leaves *)

(** The state one request is processed in. [store] is the limiter's
    table, which outlives the request. *)
Record Ctx := {
  req : Request;
  now : Z;                          (* [Date.now()] *)
  store : gmap string RateLimit.RateWindow;
  resHeaders : gmap string string;  (* set on [res], not yet sent *)
  parsedBody : bool;                (* [req.body] was filled in *)
  trace : list Event
}.

Definition with_store (st : gmap string RateLimit.RateWindow) (c : Ctx) : Ctx :=
  {| req := req c; now := now c; store := st; resHeaders := resHeaders c;
     parsedBody := parsedBody c; trace := trace c |}.

Definition with_headers (h : gmap string string) (c : Ctx) : Ctx :=
  {| req := req c; now := now c; store := store c; resHeaders := h;
     parsedBody := parsedBody c; trace := trace c |}.

Definition with_parsed (c : Ctx) : Ctx :=
  {| req := req c; now := now c; store := store c; resHeaders := resHeaders c;
     parsedBody := true; trace := trace c |}.

Definition emit (e : Event) (c : Ctx) : Ctx :=
  {| req := req c; now := now c; store := store c; resHeaders := resHeaders c;
     parsedBody := parsedBody c; trace := trace c ++ [e] |}.

(** [res.status(s).send(b)]: the headers set so far go out with it. *)
Definition send (s : Z) (b : Body) (c : Ctx) : Ctx :=
  emit (Send {| status := s; body := b; headers := resHeaders c |}) c.

Definition console_error (line : string) (c : Ctx) : Ctx :=
  emit (ConsoleError line) c.

(** How a middleware leaves: [next()], [next(err)], or the response
    was ended. *)
Inductive Step :=
| Next (c : Ctx)
| NextErr (e : Error) (c : Ctx)
| End (c : Ctx).

(** A layer of the stack: an ordinary middleware, or one of arity four
    that only sees errors. *)
Inductive Layer :=
| Mw (f : Ctx -> Step)
| ErrMw (f : Error -> Ctx -> Step).

(** What the stack leaves behind: a finished response, or a request
    (with a pending error, if any) that no layer ended and that goes to
    the framework's own final handler. *)
Inductive Outcome :=
| Finished (c : Ctx)
| Unhandled (pending : option Error) (c : Ctx).

Definition final (o : Outcome) : Ctx :=
  match o with Finished c => c | Unhandled _ c => c end.

(** The router's walk over the stack: with an error pending, ordinary
    layers are skipped; without one, error layers are. *)
Fixpoint dispatch (ls : list Layer) (pending : option Error) (c : Ctx) : Outcome :=
  match ls with
  | [] => Unhandled pending c
  | l :: rest =>
      let continue s :=
        match s with
        | Next c' => dispatch rest None c'
        | NextErr e c' => dispatch rest (Some e) c'
        | End c' => Finished c'
        end in
      match l, pending with
      | Mw f, None => continue (f c)
      | Mw _, Some _ => dispatch rest pending c
      | ErrMw f, Some e => continue (f e c)
      | ErrMw _, None => dispatch rest None c
      end
  end.

(** The responses in a trace, oldest first. *)
Definition sent (tr : list Event) : list Response :=
  omap (fun e => match e with Send r => Some r | _ => None end) tr.

Definition entered (tr : list Event) : list Group :=
  omap (fun e => match e with Enter g => Some g | _ => None end) tr.

Definition logged (tr : list Event) : list string :=
  omap (fun e => match e with ConsoleError l => Some l | _ => None end) tr.

(** *** Path matching *)

Fixpoint strip_prefix (p s : string) : option string :=
  match p with
  | EmptyString => Some s
  | String a p' =>
      match s with
      | EmptyString => None
      | String b s' => if Ascii.eqb a b then strip_prefix p' s' else None
      end
  end.

(** One trailing slash is optional in a route pattern. *)
Fixpoint trim_slash (s : string) : string :=
  match s with
  | EmptyString => EmptyString
  | String a EmptyString => if Ascii.eqb a "/" then EmptyString else s
  | String a r => String a (trim_slash r)
  end.

(** [app.get(pat, ...)]: the whole path, case-insensitively. *)
Definition route_matches (pat p : string) : bool :=
  String.eqb (trim_slash (Js.toLowerCase p)) (trim_slash pat).

(** [app.use(prefix, ...)]: the prefix, up to a segment boundary. *)
Definition mount_matches (prefix p : string) : bool :=
  match strip_prefix prefix (Js.toLowerCase p) with
  | Some EmptyString => true
  | Some (String a _) => Ascii.eqb a "/"
  | None => false
  end.

(** [app.get] also answers [HEAD]. *)
Definition is_get (m : Method) : bool :=
  match m with GET | HEAD => true | _ => false end.

(** What a handler given to [app.get] or [app.use(prefix, ...)] does
    with a request: complete the response, forward an error, or pass
    on (section 6, collaborator interfaces consumed). *)
Inductive Reply :=
| Respond (s : Z) (b : Body)
| Forward (e : Error)
| PassOn.

Definition run_handler (g : Group) (h : Request -> Reply) (c : Ctx) : Step :=
  let c1 := emit (Enter g) c in
  match h (req c) with
  | Respond s b => End (send s b c1)
  | Forward e => NextErr e c1
  | PassOn => Next c1
  end.

Definition get (pat : string) (g : Group) (h : Request -> Reply) : Layer :=
  Mw (fun c =>
    if is_get (method (req c)) && route_matches pat (path (req c))
    then run_handler g h c else Next c).

Definition use_at (prefix : string) (g : Group) (h : Request -> Reply) : Layer :=
  Mw (fun c =>
    if mount_matches prefix (path (req c))
    then run_handler g h c else Next c).

(** *** Body parsers ([express.json], [express.urlencoded]) *)

(** ["16kb"] as the parsers read it. *)
Definition kb (n : Z) : Z := n * 1024.

(** A parser reads the bodies of its own media type only. A body over
    the limit, or one it cannot parse, is forwarded as an error that is
    not an [ApiError]. *)
Definition parser_error (rt : Js.Runtime) (msg : string) : Error :=
  Untyped {| message := msg; stack := Js.stack_trace rt msg |}.

Definition body_parser (rt : Js.Runtime) (ty : BodyType) (limit : Z) : Layer :=
  Mw (fun c =>
    if decide (bodyType (req c) = ty) then
      if limit <? bodyLength (req c)
      then NextErr (parser_error rt "request entity too large") c
      else
        match bodySyntaxError (req c) with
        | None => Next (with_parsed c)
        | Some msg => NextErr (parser_error rt msg) c
        end
    else Next c).

(** *** CORS ([cors], and the [cors] option of [socket.io]) *)

Record CorsOptions := {
  origin : string;
  credentials : bool;
  optionsSuccessStatus : option Z
}.

(** The origin policy of section 3. *)
Record OriginPolicy := { allowedOrigin : string; allowCredentials : bool }.

Definition policy (o : CorsOptions) : OriginPolicy :=
  {| allowedOrigin := origin o; allowCredentials := credentials o |}.

(** The headers the policy puts on a response. *)
Definition cors_headers (p : OriginPolicy) (h : gmap string string)
    : gmap string string :=
  let h1 := <["Vary" := "Origin"]> (<["Access-Control-Allow-Origin" := allowedOrigin p]> h) in
  if allowCredentials p then <["Access-Control-Allow-Credentials" := "true"]> h1 else h1.

(** Is a request (or handshake) from origin [o] let through by the
    policy? *)
Definition origin_allowed (p : OriginPolicy) (o : string) : bool :=
  String.eqb o (allowedOrigin p).

(** A preflight ([OPTIONS]) is answered by the middleware itself. *)
Definition cors (o : CorsOptions) : Layer :=
  Mw (fun c =>
    let c1 := with_headers (cors_headers (policy o) (resHeaders c)) c in
    match method (req c) with
    | OPTIONS =>
        let c2 := with_headers
                    (<["Access-Control-Allow-Methods" := "GET,HEAD,PUT,PATCH,POST,DELETE"]>
                       (resHeaders c1)) c1 in
        End (send (default 204 (optionsSuccessStatus o)) (Text "") c2)
    | _ => Next c1
    end).

(** Layers that neither answer nor fail: [requestIp.mw()],
    [morgan("dev")], [cookieParser()]. The access line [morgan] prints
    on standard output once the response has finished is not recorded:
    the trace holds the calls of [console.error] only. *)
Definition pass_through : Layer := Mw Next.

(** The state a middleware leaves. *)
Definition ctx_of (s : Step) : Ctx :=
  match s with Next c | NextErr _ c | End c => c end.

(** The two shapes of response this application sends. *)
Definition envelope (ty : ErrorType) (msg : string) (c : Ctx) : Response :=
  {| status := httpStatus ty; body := Envelope ty msg; headers := resHeaders c |}.

Definition raw (s : Z) (text : string) (c : Ctx) : Response :=
  {| status := s; body := Text text; headers := resHeaders c |}.

(** A rule for the walk: [I] relates the pending error and the state
    between layers, [J] holds of the state once a response has ended. *)
Definition step_ok (I : option Error -> Ctx -> Prop) (J : Ctx -> Prop)
    (s : Step) : Prop :=
  match s with
  | Next c => I None c
  | NextErr e c => I (Some e) c
  | End c => J c
  end.

Definition layer_ok (I : option Error -> Ctx -> Prop) (J : Ctx -> Prop)
    (l : Layer) : Prop :=
  match l with
  | Mw f => forall c, I None c -> step_ok I J (f c)
  | ErrMw f => forall e c, I (Some e) c -> step_ok I J (f e c)
  end.

Definition outcome_ok (I : option Error -> Ctx -> Prop) (J : Ctx -> Prop)
    (o : Outcome) : Prop :=
  match o with
  | Finished c => J c
  | Unhandled p c => I p c
  end.

End Express.

(** ** The application ([src/app.ts]) *)

Module App.

Import ApiError Express.

(** The values imported from [./config]. *)
Record Config := { corsUrl : string; environment : string; port : Z }.

(** What the application is given from outside this file. *)
Record Deps := {
  runtime : Js.Runtime;
  (** [requestIp.getClientIp]: the address, or [null] *)
  getClientIp : Request -> option string;
  (** the message of an [InternalError] built without arguments *)
  internalMessage : string;
  authRoutes : Request -> Reply;
  chatRoutes : Request -> Reply;
  messageRoutes : Request -> Reply;
  (** [express.static] on the [public] directory, for [GET] and [HEAD] *)
  publicFiles : Request -> Reply
}.

(** Modelled from the spec: the error classes of [./core/ApiError] used
    here; each is an [ApiError] of the kind it is named after, and an
    [InternalError] built without arguments carries a generic message. *)
Definition RateLimitError (d : Deps) (msg : string) : Error :=
  Typed RATE_LIMIT {| message := msg; stack := Js.stack_trace (runtime d) msg |}.

Definition InternalError (d : Deps) : Info :=
  {| message := internalMessage d;
     stack := Js.stack_trace (runtime d) (internalMessage d) |}.

(** Modelled from the spec: [ApiError.handle] of [./core/ApiError] sends
    the status of the error's kind together with the kind and the
    error's own message (section 4.3). *)
Definition handle (ty : ErrorType) (i : Info) (res : Ctx) : Ctx :=
  send (httpStatus ty) (Envelope ty (message i)) res.

Definition banner : string :=
  "🚀 WELCOME TO RABBIT API! Backend is running successfully.".

Definition healthy : string := "✅ Server is healthy and running".

(** *** The limiter *)

Definition limiter_options : RateLimit.Options :=
  {| RateLimit.windowMs := 1 * 60 * 1000;
     RateLimit.max := 200;
     RateLimit.standardHeaders := true;
     RateLimit.legacyHeaders := false |}.

Definition keyGenerator (d : Deps) (r : Request) : string :=
  Js.or (getClientIp d r) "".

Definition rejection_message (d : Deps) (o : RateLimit.Options) : string :=
  "You exceeded the request limit. Allowed " +:+ pretty (RateLimit.max o)
  +:+ " requests per "
  +:+ Js.quotient_text (runtime d) (RateLimit.windowMs o) 60000
  +:+ " minute.".

Definition handler (d : Deps) (o : RateLimit.Options) (c : Ctx) : Step :=
  NextErr (RateLimitError d (rejection_message d o)) c.

(** The middleware [rateLimit(options)] returns: count the hit under the
    request's key, write the headers, then go on or call [handler]. *)
Definition counted (o : RateLimit.Options) (k : string) (c : Ctx) : Ctx :=
  let w := (RateLimit.step o (now c) (store c !! k)).2 in
  with_headers (RateLimit.setHeaders o (now c) w (resHeaders c))
    (with_store (<[k := w]> (store c)) c).

Definition retry_after (o : RateLimit.Options) (k : string) (c : Ctx) : Ctx :=
  let w := (RateLimit.step o (now c) (store c !! k)).2 in
  with_headers
    (<["Retry-After" := pretty (RateLimit.resetSeconds o (now c) w)]>
       (resHeaders (counted o k c)))
    (counted o k c).

Definition rateLimit (o : RateLimit.Options) (key : Request -> string)
    (onLimit : RateLimit.Options -> Ctx -> Step) (c : Ctx) : Step :=
  let k := key (req c) in
  match (RateLimit.step o (now c) (store c !! k)).1 with
  | RateLimit.Allowed => Next (counted o k c)
  | RateLimit.Rejected => onLimit o (retry_after o k c)
  end.

Definition limiter_with (d : Deps) (o : RateLimit.Options) : Ctx -> Step :=
  rateLimit o (keyGenerator d) (handler d).

Definition limiter (d : Deps) : Ctx -> Step := limiter_with d limiter_options.

(** *** Origin policy *)

Definition http_cors (cfg : Config) : CorsOptions :=
  {| origin := corsUrl cfg; credentials := true; optionsSuccessStatus := Some 200 |}.

Record SocketOptions := { pingTimeout : Z; cors_option : CorsOptions }.

Definition io_options (cfg : Config) : SocketOptions :=
  {| pingTimeout := 60000;
     cors_option :=
       {| origin := corsUrl cfg; credentials := true; optionsSuccessStatus := None |} |}.

(** *** The error-handling middleware *)

Definition log_line (i : Info) (r : Request) : string :=
  "500 - " +:+ message i +:+ " - " +:+ originalUrl r +:+ " - "
  +:+ method_name (method r) +:+ " - " +:+ ip r +:+ Js.nl +:+ stack i.

Definition errorHandler (cfg : Config) (d : Deps) (err : Error) (c : Ctx) : Step :=
  match err with
  | Typed ty i =>
      let c1 := handle ty i c in
      if decide (ty = INTERNAL)
      then End (console_error (log_line i (req c)) c1)
      else End c1
  | Untyped i =>
      let c1 := console_error (log_line i (req c)) c in
      if String.eqb (environment cfg) "development"
      then End (send 500 (Text (stack i)) c1)
      else End (handle INTERNAL (InternalError d) c1)
  end.

(** *** The stack, in registration order *)

Definition static (files : Request -> Reply) (r : Request) : Reply :=
  if is_get (method r) then files r else PassOn.

Definition app_stack_with (cfg : Config) (d : Deps) (o : RateLimit.Options)
    : list Layer :=
  [ get "/" Root (fun _ => Respond 200 (Text banner));
    pass_through;                                          (* requestIp.mw() *)
    Mw (limiter_with d o);
    body_parser (runtime d) JsonBody (kb 16);
    body_parser (runtime d) UrlencodedBody (kb 16);
    cors (http_cors cfg);
    pass_through;                                          (* morgan("dev") *)
    pass_through;                                          (* cookieParser() *)
    get "/health" Health (fun _ => Respond 200 (Text healthy));
    use_at "/auth" Auth (authRoutes d);
    use_at "/api/chat" Chat (chatRoutes d);
    use_at "/api/messages" Messages (messageRoutes d);
    use_at "/public" Static (static (publicFiles d));
    ErrMw (errorHandler cfg d) ].

Definition app_stack (cfg : Config) (d : Deps) : list Layer :=
  app_stack_with cfg d limiter_options.

(** The layers registered after the limiter. *)
Definition downstream (cfg : Config) (d : Deps) : list Layer :=
  drop 3 (app_stack cfg d).

(** Is the request answered by the root route, ahead of everything
    else? *)
Definition at_root (r : Request) : bool :=
  is_get (method r) && route_matches "/" (path r).

(** Is the request's hit within the limit? *)
Definition verdict (d : Deps) (o : RateLimit.Options)
    (st : gmap string RateLimit.RateWindow) (t : Z) (r : Request)
    : RateLimit.Decision :=
  (RateLimit.step o t (st !! keyGenerator d r)).1.

(** A request arrives: nothing is set on the response yet. *)
Definition arrive (st : gmap string RateLimit.RateWindow) (t : Z) (r : Request) : Ctx :=
  {| req := r; now := t; store := st; resHeaders := ∅;
     parsedBody := false; trace := [] |}.

Definition app (cfg : Config) (d : Deps)
    (st : gmap string RateLimit.RateWindow) (t : Z) (r : Request) : Outcome :=
  dispatch (app_stack cfg d) None (arrive st t r).

(** The same application with other limiter options, for the scenarios of
    section 8. *)
Definition app_with (cfg : Config) (d : Deps) (o : RateLimit.Options)
    (st : gmap string RateLimit.RateWindow) (t : Z) (r : Request) : Outcome :=
  dispatch (app_stack_with cfg d o) None (arrive st t r).

(** The error-handling stage on its own: what it logs and sends for an
    error raised while [r] was being served. *)
Definition handle_error (cfg : Config) (d : Deps) (err : Error) (c : Ctx) : Ctx :=
  match errorHandler cfg d err c with
  | Next c' | NextErr _ c' | End c' => c'
  end.

(** Does the path belong to one of the registered groups? *)
Definition registered (p : string) : bool :=
  route_matches "/" p || route_matches "/health" p
  || mount_matches "/auth" p || mount_matches "/api/chat" p
  || mount_matches "/api/messages" p || mount_matches "/public" p.

(** *** Sample values *)

Definition sample_runtime : Js.Runtime :=
  {| Js.fraction_text := fun a b => pretty a +:+ "/" +:+ pretty b;
     Js.stack_trace := fun m => "Error: " +:+ m +:+ Js.nl +:+ "    at <anonymous>" |}.

Definition sample_deps : Deps :=
  {| runtime := sample_runtime;
     getClientIp := fun r => if String.eqb (ip r) "" then None else Some (ip r);
     internalMessage := "Internal error";
     authRoutes := fun _ => PassOn;
     chatRoutes := fun _ => PassOn;
     messageRoutes := fun _ => PassOn;
     publicFiles := fun _ => PassOn |}.

Definition production : Config :=
  {| corsUrl := "https://chat.example"; environment := "production"; port := 8080 |}.

Definition development : Config :=
  {| corsUrl := "https://chat.example"; environment := "development"; port := 8080 |}.

Definition request (m : Method) (p : string) (from : string) : Request :=
  {| method := m; path := p; originalUrl := p; ip := from;
     bodyType := NoBody; bodyLength := 0; bodySyntaxError := None |}.

Definition with_body (ty : BodyType) (len : Z) (r : Request) : Request :=
  {| method := method r; path := path r; originalUrl := originalUrl r; ip := ip r;
     bodyType := ty; bodyLength := len; bodySyntaxError := None |}.

Definition full_window : gmap string RateLimit.RateWindow :=
  <["10.0.0.1" := {| RateLimit.count := 200; RateLimit.windowStart := 0 |}]> ∅.


Definition db_timeout : Info :=
  {| message := "db timeout";
     stack := Js.stack_trace sample_runtime "db timeout" |}.

Definition disk_full : Info :=
  {| message := "disk full"; stack := Js.stack_trace sample_runtime "disk full" |}.

Definition max_2 : RateLimit.Options :=
  {| RateLimit.windowMs := 60000; RateLimit.max := 2;
     RateLimit.standardHeaders := true; RateLimit.legacyHeaders := false |}.

Definition two_hits : gmap string RateLimit.RateWindow :=
  <["10.0.0.1" := {| RateLimit.count := 2; RateLimit.windowStart := 10 |}]> ∅.

(** A header table with the standard rate-limit triple and none of the
    legacy one. *)
Definition no_legacy (h : gmap string string) : Prop :=
  forall n, n ∈ RateLimit.legacy_names -> h !! n = None.

Definition carries (h : gmap string string) : Prop :=
  (forall n, n ∈ RateLimit.standard_names -> is_Some (h !! n)) /\ no_legacy h.

(** The headers set so far, and those of every response already sent,
    carry the triple. *)
Definition labelled (c : Ctx) : Prop :=
  carries (resHeaders c) /\
  Forall (fun resp => carries (headers resp)) (sent (trace c)).

(** The state in which the health route answers the first request of
    ["10.0.0.1"]. *)
Definition health_ctx : Ctx :=
  with_headers
    (cors_headers (policy (http_cors production))
       (resHeaders (counted limiter_options "10.0.0.1"
                      (arrive ∅ 1000 (request GET "/health" "10.0.0.1")))))
    (counted limiter_options "10.0.0.1"
       (arrive ∅ 1000 (request GET "/health" "10.0.0.1"))).

(** Is a [NOT_FOUND] error pending, is a body the [NOT_FOUND] envelope? *)
Definition not_found_pending (p : option Error) : bool :=
  match p with Some (Typed NOT_FOUND _) => true | _ => false end.

Definition is_not_found (b : Body) : bool :=
  match b with Envelope NOT_FOUND _ => true | _ => false end.

(** Would one of the two body parsers forward an error for this
    request? *)
Definition refused (limit : Z) (r : Request) : bool :=
  match bodyType r with
  | JsonBody | UrlencodedBody =>
      (limit <? bodyLength r)
      || match bodySyntaxError r with Some _ => true | None => false end
  | _ => false
  end.

(** No route handler was invoked and no [NOT_FOUND] answer was sent. *)
Definition untouched (c : Ctx) : Prop :=
  entered (trace c) = [] /\
  Forall (fun resp => is_not_found (body resp) = false) (sent (trace c)).

(** The state of a request for a path outside the route table, between
    two layers. *)
Definition unrouted (p : option Error) (c : Ctx) : Prop :=
  registered (path (req c)) = false /\ not_found_pending p = false /\ untouched c.

(** The body of [r] was filled in only if it is of a parsed media type
    and within the limit of the parsers. *)
Definition parsed_small (r : Request) (c : Ctx) : Prop :=
  req c = r /\
  (parsedBody c = true ->
   (bodyType r = JsonBody \/ bodyType r = UrlencodedBody) /\ bodyLength r <= kb 16).

(** The error a parser forwards for a body over its limit. *)
Definition too_large (d : Deps) : Info :=
  {| message := "request entity too large";
     stack := Js.stack_trace (runtime d) "request entity too large" |}.

Definition big_root_request : Request :=
  with_body JsonBody 20000 (request GET "/" "10.0.0.1").

(** *** The route table and the course of a request *)

(** The matcher each group is registered with. *)
Definition selects (g : Group) (p : string) : bool :=
  match g with
  | Root => route_matches "/" p
  | Health => route_matches "/health" p
  | Auth => mount_matches "/auth" p
  | Chat => mount_matches "/api/chat" p
  | Messages => mount_matches "/api/messages" p
  | Static => mount_matches "/public" p
  end.

(** The handler a group is mounted with by [app.use]. *)
Definition router_of (d : Deps) (g : Group) : option (Request -> Reply) :=
  match g with
  | Auth => Some (authRoutes d)
  | Chat => Some (chatRoutes d)
  | Messages => Some (messageRoutes d)
  | Static => Some (static (publicFiles d))
  | Root | Health => None
  end.

(** Nothing has been sent or logged for [r] yet. *)
Definition silent (r : Request) (c : Ctx) : Prop :=
  req c = r /\ sent (trace c) = [] /\ logged (trace c) = [].

(** [r] got its one response; the console was written at most once, and
    only next to a response of status 500. *)
Definition answered (r : Request) (c : Ctx) : Prop :=
  req c = r /\
  exists resp,
    sent (trace c) = [resp] /\
    (logged (trace c) = [] \/
     (status resp = 500 /\ exists i, logged (trace c) = [log_line i r])).

(** The request and the limiter's table are those of [c0]. *)
Definition same_request (c0 c : Ctx) : Prop :=
  req c = req c0 /\ store c = store c0 /\ now c = now c0.

(** A header table with the two CORS headers of the origin policy. *)
Definition allows (u : string) (h : gmap string string) : Prop :=
  h !! "Access-Control-Allow-Origin" = Some u /\
  h !! "Access-Control-Allow-Credentials" = Some "true".

(** The headers set so far, and those of every response already sent,
    carry the CORS headers for origin [u]. *)
Definition opened (u : string) (c : Ctx) : Prop :=
  allows u (resHeaders c) /\
  Forall (fun resp => allows u (headers resp)) (sent (trace c)).

(** Collaborators whose auth router turns every request down. *)
Definition bad_credentials : Info :=
  {| message := "Invalid credentials";
     stack := Js.stack_trace sample_runtime "Invalid credentials" |}.

Definition guarded_deps : Deps :=
  {| runtime := sample_runtime;
     getClientIp := fun r => if String.eqb (ip r) "" then None else Some (ip r);
     internalMessage := "Internal error";
     authRoutes := fun _ => Forward (Typed UNAUTHORIZED bad_credentials);
     chatRoutes := fun _ => Respond 200 (Text "[]");
     messageRoutes := fun _ => PassOn;
     publicFiles := fun _ => PassOn |}.

Definition login_request : Request := request POST "/auth/login" "10.0.0.1".

Definition broken_json : Request :=
  {| method := POST; path := "/api/messages"; originalUrl := "/api/messages";
     ip := "10.0.0.1"; bodyType := JsonBody; bodyLength := 12;
     bodySyntaxError := Some "Unexpected end of JSON input" |}.

End App.

Import ApiError Express App.

(** * The rate limiter *)

Section Counter.

Import RateLimit.

Variable o : Options.


Lemma step_expired now w :
  expired o now w = true -> step o now (Some w) = (Allowed, fresh now).
Proof. intros E. cbn. now rewrite E. Qed.

Lemma step_open now w :
  expired o now w = false ->
  step o now (Some w) =
    (if count w + 1 <=? max o then Allowed else Rejected,
     {| count := count w + 1; windowStart := windowStart w |}).
Proof. intros E. cbn. now rewrite E. Qed.

Lemma expired_elapsed now w :
  windowStart w + windowMs o <= now -> expired o now w = true.
Proof.
  intros H. unfold expired. apply orb_true_iff. right. now apply Z.leb_le.
Qed.


Lemma admit_step now k (st : gmap string RateWindow) :
  admit_request o now k st =
    ((step o now (st !! k)).1, <[k := (step o now (st !! k)).2]> st).
Proof. unfold admit_request. now destruct (step o now (st !! k)). Qed.

Lemma admit_other now k j (st : gmap string RateWindow) :
  j <> k -> (admit_request o now k st).2 !! j = st !! j.
Proof.
  intros Hne. rewrite admit_step. cbn. now rewrite lookup_insert_ne.
Qed.

Lemma admit_self now k (st : gmap string RateWindow) :
  (admit_request o now k st).2 !! k = Some (step o now (st !! k)).2.
Proof. rewrite admit_step. cbn. apply lookup_insert_eq. Qed.

(** The count of an open window never passes [max] while its requests are
    admitted: an admitted hit leaves [count <= max], as long as [max] is
    at least one. *)
Lemma admitted_count_le now prev :
  1 <= max o ->
  (step o now prev).1 = Allowed -> count (step o now prev).2 <= max o.
Proof.
  intros Hmax. destruct prev as [w|]; cbn; [|intros _; exact Hmax].
  destruct (expired o now w); cbn; [intros _; exact Hmax|].
  destruct (count w + 1 <=? max o) eqn:E; [|discriminate].
  intros _. now apply Z.leb_le.
Qed.

End Counter.

(** The limiter of the application is this counter, run under the
    request's key: it leaves the table [admit_request] computes, and it
    calls [next()] exactly when the verdict is [Allowed]. *)
Lemma limiter_counts (d : Deps) (c : Ctx) :
  let k := keyGenerator d (req c) in
  let a := RateLimit.admit_request limiter_options (now c) k (store c) in
  store (ctx_of (limiter d c)) = a.2 /\
  (a.1 = RateLimit.Allowed <-> exists c', limiter d c = Next c').
Proof.
  intros k a. subst a. rewrite admit_step. cbn [fst snd].
  unfold limiter, limiter_with, rateLimit. fold k.
  destruct (RateLimit.step limiter_options (now c) (store c !! k)).1 eqn:E.
  - split; [reflexivity|]. split; [eauto|reflexivity].
  - split; [reflexivity|]. split; [discriminate|]. intros [c' H]. discriminate H.
Qed.

(** The counter on its own, under the options of [src/app.ts]: what one
    hit does to the table and how it is decided. *)
Lemma counter_fixed_window (k : string) (now : Z)
    (st : gmap string RateLimit.RateWindow) :
  let o := limiter_options in
  let d := (RateLimit.admit_request o now k st).1 in
  let st' := (RateLimit.admit_request o now k st).2 in
  RateLimit.windowMs o = 60000 /\ RateLimit.max o = 200 /\
  (forall j, j <> k -> st' !! j = st !! j) /\
  (st !! k = None ->
     d = RateLimit.Allowed /\ st' !! k = Some (RateLimit.fresh now)) /\
  (forall w, st !! k = Some w -> RateLimit.expired o now w = true ->
     d = RateLimit.Allowed /\ st' !! k = Some (RateLimit.fresh now)) /\
  (forall w, st !! k = Some w -> RateLimit.expired o now w = false ->
     st' !! k = Some {| RateLimit.count := RateLimit.count w + 1;
                        RateLimit.windowStart := RateLimit.windowStart w |} /\
     (d = RateLimit.Allowed <-> RateLimit.count w + 1 <= RateLimit.max o)) /\
  (forall w, st !! k = Some w ->
     RateLimit.windowStart w + RateLimit.windowMs o <= now ->
     d = RateLimit.Allowed /\
     st' !! k = Some {| RateLimit.count := 1; RateLimit.windowStart := now |}).
Proof.
  intros o d st'. subst d st'.
  split; [reflexivity|]. split; [reflexivity|].
  split; [intros j Hj; now apply admit_other|].
  rewrite admit_self, admit_step. cbn [fst snd].
  assert (Hexp : forall w, st !! k = Some w -> RateLimit.expired o now w = true ->
            (RateLimit.step o now (st !! k)).1 = RateLimit.Allowed /\
            Some (RateLimit.step o now (st !! k)).2 = Some (RateLimit.fresh now)).
  { intros w Hw E. rewrite Hw, (step_expired o now w E). now split. }
  split; [intros Hk; rewrite Hk; now split|].
  split; [exact Hexp|].
  split.
  - intros w Hw E. rewrite Hw, (step_open o now w E). cbn [fst snd].
    split; [reflexivity|].
    destruct (RateLimit.count w + 1 <=? RateLimit.max o) eqn:L.
    + apply Z.leb_le in L. now split.
    + apply Z.leb_gt in L. split; [discriminate|lia].
  - intros w Hw E. apply (Hexp w Hw). now apply expired_elapsed.
Qed.






(** The scenario of section 8: with a maximum of 2, the first two
    requests of one address within a window are admitted and the third is
    rejected; the first request after the window is admitted again. *)
Example scenario_max_2 :
  (RateLimit.admit_all
     {| RateLimit.windowMs := 60000; RateLimit.max := 2;
        RateLimit.standardHeaders := true; RateLimit.legacyHeaders := false |}
     "10.0.0.1" [0; 10; 20; 60000] ∅).1
  = [RateLimit.Allowed; RateLimit.Allowed; RateLimit.Rejected; RateLimit.Allowed].
Proof. vm_compute. reflexivity. Qed.

(** * The key of a request *)




(** * Traces *)

Lemma sent_app (a b : list Event) : sent (a ++ b) = sent a ++ sent b.
Proof. apply omap_app. Qed.

Lemma entered_app (a b : list Event) : entered (a ++ b) = entered a ++ entered b.
Proof. apply omap_app. Qed.

Lemma logged_app (a b : list Event) : logged (a ++ b) = logged a ++ logged b.
Proof. apply omap_app. Qed.

(** * The error-handling stage *)

Section ErrorStage.

Variable cfg : Config.
Variable d : Deps.

(** The stage always ends the response; it never calls [next]. *)
Lemma errorHandler_ends err c :
  errorHandler cfg d err c = End (handle_error cfg d err c).
Proof.
  unfold handle_error, errorHandler. destruct err as [ty i|i].
  - now destruct (decide (ty = INTERNAL)).
  - now destruct (String.eqb (environment cfg) "development").
Qed.

Lemma handle_error_typed ty i c :
  trace (handle_error cfg d (Typed ty i) c) =
    trace c ++ Send (envelope ty (message i) c)
            :: (if decide (ty = INTERNAL)
                then [ConsoleError (log_line i (req c))] else []).
Proof.
  unfold handle_error, errorHandler.
  destruct (decide (ty = INTERNAL)); cbn; [|reflexivity].
  now rewrite <- app_assoc.
Qed.

Lemma handle_error_untyped i c :
  trace (handle_error cfg d (Untyped i) c) =
    trace c ++ [ConsoleError (log_line i (req c));
                Send (if String.eqb (environment cfg) "development"
                      then raw 500 (stack i) c
                      else envelope INTERNAL (internalMessage d) c)].
Proof.
  unfold handle_error, errorHandler.
  destruct (String.eqb (environment cfg) "development"); cbn;
    now rewrite <- app_assoc.
Qed.

Lemma sent_typed ty i c :
  sent (trace (handle_error cfg d (Typed ty i) c)) =
    sent (trace c) ++ [envelope ty (message i) c].
Proof.
  rewrite handle_error_typed, sent_app.
  now destruct (decide (ty = INTERNAL)).
Qed.

Lemma sent_untyped i c :
  sent (trace (handle_error cfg d (Untyped i) c)) =
    sent (trace c) ++ [if String.eqb (environment cfg) "development"
                       then raw 500 (stack i) c
                       else envelope INTERNAL (internalMessage d) c].
Proof. now rewrite handle_error_untyped, sent_app. Qed.

Lemma not_development :
  environment cfg <> "development" ->
  String.eqb (environment cfg) "development" = false.
Proof. intros H. now apply String.eqb_neq. Qed.

End ErrorStage.

(** C1. An error that is an [ApiError] is answered with the status of
    its kind in the table of section 4.3, that kind, and its own
    message. Any other error is answered with status 500; outside
    development mode (so in production) the answer is the [INTERNAL]
    envelope with the generic message of [InternalError], in which
    nothing of the original error appears. *)
Theorem error_stage_taxonomy (cfg : Config) (d : Deps) (c : Ctx) :
  (httpStatus BAD_REQUEST = 400 /\ httpStatus UNAUTHORIZED = 401 /\
   httpStatus FORBIDDEN = 403 /\ httpStatus NOT_FOUND = 404 /\
   httpStatus RATE_LIMIT = 429 /\ httpStatus INTERNAL = 500) /\
  (forall ty i,
     sent (trace (handle_error cfg d (Typed ty i) c)) =
       sent (trace c) ++
       [{| status := httpStatus ty; body := Envelope ty (message i);
           headers := resHeaders c |}]) /\
  (forall i, exists b,
     sent (trace (handle_error cfg d (Untyped i) c)) =
       sent (trace c) ++ [{| status := 500; body := b; headers := resHeaders c |}]) /\
  (forall i, environment cfg <> "development" ->
     sent (trace (handle_error cfg d (Untyped i) c)) =
       sent (trace c) ++
       [{| status := 500; body := Envelope INTERNAL (internalMessage d);
           headers := resHeaders c |}]).
Proof.
  split; [repeat split|].
  split; [intros ty i; apply sent_typed|].
  split.
  - intros i. rewrite sent_untyped.
    destruct (String.eqb (environment cfg) "development"); eexists; reflexivity.
  - intros i Henv. rewrite sent_untyped, (not_development cfg Henv). reflexivity.
Qed.

Lemma error_stage_taxonomy_witness :
  sent (trace (handle_error production sample_deps (Untyped db_timeout)
                 (arrive ∅ 0 (request GET "/api/chat" "10.0.0.1")))) =
    [{| status := 500; body := Envelope INTERNAL "Internal error"; headers := ∅ |}].
Proof.
  destruct (error_stage_taxonomy production sample_deps
              (arrive ∅ 0 (request GET "/api/chat" "10.0.0.1")))
    as (_ & _ & _ & Hprod).
  apply (Hprod db_timeout). vm_compute. discriminate.
Defined.

(** C6. For an error that is not an [ApiError], the response is the raw
    stack exactly when the environment is ["development"]; in every
    other environment any two such errors get one and the same response,
    the generic [INTERNAL] envelope, whatever their message and stack. *)
Theorem raw_stack_only_in_development (cfg : Config) (d : Deps) (c : Ctx) :
  (forall i resp text,
     sent (trace (handle_error cfg d (Untyped i) c)) = sent (trace c) ++ [resp] ->
     body resp = Text text ->
     environment cfg = "development") /\
  (forall i, environment cfg = "development" ->
     sent (trace (handle_error cfg d (Untyped i) c)) =
       sent (trace c) ++ [raw 500 (stack i) c]) /\
  (forall i1 i2, environment cfg <> "development" ->
     sent (trace (handle_error cfg d (Untyped i1) c)) =
       sent (trace (handle_error cfg d (Untyped i2) c)) /\
     sent (trace (handle_error cfg d (Untyped i1) c)) =
       sent (trace c) ++ [envelope INTERNAL (internalMessage d) c]).
Proof.
  split; [|split].
  - intros i resp text Hsent Hbody. rewrite sent_untyped in Hsent.
    apply app_inv_head in Hsent.
    destruct (String.eqb (environment cfg) "development") eqn:E.
    + now apply String.eqb_eq.
    + injection Hsent as <-. discriminate Hbody.
  - intros i Hdev. rewrite sent_untyped, Hdev. reflexivity.
  - intros i1 i2 Henv.
    rewrite !sent_untyped, (not_development cfg Henv). now split.
Qed.

Lemma raw_stack_only_in_development_witness :
  sent (trace (handle_error production sample_deps (Untyped db_timeout)
                 (arrive ∅ 0 (request GET "/api/chat" "10.0.0.1")))) =
  sent (trace (handle_error production sample_deps (Untyped disk_full)
                 (arrive ∅ 0 (request GET "/api/chat" "10.0.0.1")))) /\
  sent (trace (handle_error development sample_deps (Untyped db_timeout)
                 (arrive ∅ 0 (request GET "/api/chat" "10.0.0.1")))) =
    [raw 500 (stack db_timeout) (arrive ∅ 0 (request GET "/api/chat" "10.0.0.1"))].
Proof.
  split.
  - destruct (raw_stack_only_in_development production sample_deps
                (arrive ∅ 0 (request GET "/api/chat" "10.0.0.1")))
      as (_ & _ & Hsame).
    apply (Hsame db_timeout disk_full). vm_compute. discriminate.
  - destruct (raw_stack_only_in_development development sample_deps
                (arrive ∅ 0 (request GET "/api/chat" "10.0.0.1")))
      as (_ & Hdev & _).
    apply (Hdev db_timeout). reflexivity.
Defined.

(** C9. What the code does for an [ApiError] of kind [INTERNAL]: the
    response is sent first and the log line, which records the message,
    the path, the method, the client address and the stack, is written
    after it. *)
Theorem typed_internal_logged_after_response (cfg : Config) (d : Deps)
    (i : Info) (c : Ctx) :
  trace (handle_error cfg d (Typed INTERNAL i) c) =
    trace c ++
    [Send {| status := 500; body := Envelope INTERNAL (message i);
             headers := resHeaders c |};
     ConsoleError
       ("500 - " +:+ message i +:+ " - " +:+ originalUrl (req c) +:+ " - "
        +:+ method_name (method (req c)) +:+ " - " +:+ ip (req c)
        +:+ Js.nl +:+ stack i)].
Proof. rewrite handle_error_typed. reflexivity. Qed.

(** For an error that is not an [ApiError] the same line is written
    before the response is sent. *)
Lemma untyped_logged_before_response (cfg : Config) (d : Deps)
    (i : Info) (c : Ctx) :
  exists resp,
    trace (handle_error cfg d (Untyped i) c) =
      trace c ++ [ConsoleError (log_line i (req c)); Send resp] /\
    status resp = 500.
Proof.
  rewrite handle_error_untyped. eexists. split; [reflexivity|].
  now destruct (String.eqb (environment cfg) "development").
Qed.

(** * The origin policy *)

(** C5. The CORS middleware of the HTTP stack and the [cors] option of
    the socket server are built from the same [corsUrl] and both allow
    credentials: for every configuration the two origin policies are
    equal, so they admit_request the same origins and put the same headers on a
    response. *)
Theorem origin_policy_shared (cfg : Config) :
  policy (http_cors cfg) = policy (cors_option (io_options cfg)) /\
  allowedOrigin (policy (http_cors cfg)) = corsUrl cfg /\
  allowedOrigin (policy (cors_option (io_options cfg))) = corsUrl cfg /\
  allowCredentials (policy (http_cors cfg)) = true /\
  allowCredentials (policy (cors_option (io_options cfg))) = true /\
  (forall o, origin_allowed (policy (http_cors cfg)) o =
             origin_allowed (policy (cors_option (io_options cfg))) o) /\
  (forall h, cors_headers (policy (http_cors cfg)) h =
             cors_headers (policy (cors_option (io_options cfg))) h).
Proof. repeat split. Qed.

(** * Walking the stack *)

Section Dispatch.

Lemma dispatch_next f rest c c' :
  f c = Next c' -> dispatch (Mw f :: rest) None c = dispatch rest None c'.
Proof. intros H. cbn. now rewrite H. Qed.

Lemma dispatch_fail f rest c e c' :
  f c = NextErr e c' -> dispatch (Mw f :: rest) None c = dispatch rest (Some e) c'.
Proof. intros H. cbn. now rewrite H. Qed.

Lemma dispatch_end f rest c c' :
  f c = End c' -> dispatch (Mw f :: rest) None c = Finished c'.
Proof. intros H. cbn. now rewrite H. Qed.

Lemma dispatch_skip f rest e c :
  dispatch (Mw f :: rest) (Some e) c = dispatch rest (Some e) c.
Proof. reflexivity. Qed.

Variable I : option Error -> Ctx -> Prop.
Variable J : Ctx -> Prop.

Lemma dispatch_ok ls :
  Forall (layer_ok I J) ls ->
  forall p c, I p c -> outcome_ok I J (dispatch ls p c).
Proof.
  induction 1 as [|l rest Hl _ IH]; intros p c Hc; [exact Hc|].
  destruct l as [f|f], p as [e|]; cbn.
  - now apply IH.
  - specialize (Hl c Hc). destruct (f c); cbn in Hl; [now apply IH..|exact Hl].
  - specialize (Hl e c Hc). destruct (f e c); cbn in Hl; [now apply IH..|exact Hl].
  - now apply IH.
Qed.

End Dispatch.

(** * The stack of [src/app.ts] *)

Section Pipeline.

Variable cfg : Config.
Variable d : Deps.

Lemma get_miss pat g h rest c :
  is_get (method (req c)) && route_matches pat (path (req c)) = false ->
  dispatch (get pat g h :: rest) None c = dispatch rest None c.
Proof. intros H. cbn. now rewrite H. Qed.

Lemma get_hit pat g h rest c :
  is_get (method (req c)) && route_matches pat (path (req c)) = true ->
  dispatch (get pat g h :: rest) None c =
    match h (req c) with
    | Respond s b => Finished (send s b (emit (Enter g) c))
    | Forward e => dispatch rest (Some e) (emit (Enter g) c)
    | PassOn => dispatch rest None (emit (Enter g) c)
    end.
Proof.
  intros H. cbn. rewrite H. unfold run_handler. now destruct (h (req c)).
Qed.

Lemma use_miss prefix g h rest c :
  mount_matches prefix (path (req c)) = false ->
  dispatch (use_at prefix g h :: rest) None c = dispatch rest None c.
Proof. intros H. cbn. now rewrite H. Qed.

Lemma stack_split o :
  app_stack_with cfg d o =
    get "/" Root (fun _ => Respond 200 (Text banner))
    :: pass_through :: Mw (limiter_with d o) :: downstream cfg d.
Proof. reflexivity. Qed.

(** An error pending behind the limiter reaches the error-handling
    middleware, which ends the response. *)
Lemma downstream_error e c :
  dispatch (downstream cfg d) (Some e) c = Finished (handle_error cfg d e c).
Proof.
  change (dispatch (downstream cfg d) (Some e) c)
    with (match errorHandler cfg d e c with
          | Next c' => Unhandled None c'
          | NextErr e' c' => Unhandled (Some e') c'
          | End c' => Finished c'
          end).
  now rewrite errorHandler_ends.
Qed.

(** The root route answers before anything else is consulted. *)
Lemma app_at_root o st t r :
  at_root r = true ->
  app_with cfg d o st t r =
    Finished (send 200 (Text banner) (emit (Enter Root) (arrive st t r))).
Proof.
  intros H. unfold app_with. rewrite stack_split. now rewrite get_hit.
Qed.

Lemma app_admitted o st t r :
  at_root r = false -> verdict d o st t r = RateLimit.Allowed ->
  app_with cfg d o st t r =
    dispatch (downstream cfg d) None (counted o (keyGenerator d r) (arrive st t r)).
Proof.
  intros Hroot Hv. unfold app_with. rewrite stack_split.
  rewrite get_miss by exact Hroot.
  cbn [dispatch pass_through]. unfold limiter_with, rateLimit.
  change (RateLimit.step o (now (arrive st t r))
            (store (arrive st t r) !! keyGenerator d (req (arrive st t r)))).1
    with (verdict d o st t r).
  now rewrite Hv.
Qed.

Lemma app_rejected o st t r :
  at_root r = false -> verdict d o st t r = RateLimit.Rejected ->
  app_with cfg d o st t r =
    Finished (handle_error cfg d (RateLimitError d (rejection_message d o))
                (retry_after o (keyGenerator d r) (arrive st t r))).
Proof.
  intros Hroot Hv. unfold app_with. rewrite stack_split.
  rewrite get_miss by exact Hroot.
  cbn [dispatch pass_through]. unfold limiter_with, rateLimit.
  change (RateLimit.step o (now (arrive st t r))
            (store (arrive st t r) !! keyGenerator d (req (arrive st t r)))).1
    with (verdict d o st t r).
  rewrite Hv. unfold handler. apply downstream_error.
Qed.

End Pipeline.

(** C3. A request the limiter rejects is not answered by the limiter:
    its handler passes a [RateLimitError] to [next], with a message that
    names the configured maximum and the window in minutes (for a maximum
    of 2 and a window of 60000 ms it contains "2 requests per 1 minute");
    the error-handling middleware then answers with status 429 and kind
    [RATE_LIMIT], and that is the only thing the request produces. *)
Theorem rejection_forwarded_as_rate_limit_error (cfg : Config) (d : Deps)
    (o : RateLimit.Options) (st : gmap string RateLimit.RateWindow)
    (t : Z) (r : Request) :
  at_root r = false ->
  verdict d o st t r = RateLimit.Rejected ->
  let c := arrive st t r in
  let c' := retry_after o (keyGenerator d r) c in
  let msg := rejection_message d o in
  limiter_with d o c = NextErr (RateLimitError d msg) c' /\
  trace c' = [] /\
  instanceofApiError (RateLimitError d msg) = true /\
  msg = "You exceeded the request limit. Allowed " +:+ pretty (RateLimit.max o)
        +:+ " requests per "
        +:+ Js.quotient_text (runtime d) (RateLimit.windowMs o) 60000
        +:+ " minute." /\
  (RateLimit.max o = 2 -> RateLimit.windowMs o = 60000 ->
     Js.includes msg "2 requests per 1 minute" = true) /\
  exists c2,
    app_with cfg d o st t r = Finished c2 /\
    trace c2 = [Send {| status := 429; body := Envelope RATE_LIMIT msg;
                        headers := resHeaders c' |}].
Proof.
  intros Hroot Hv c c' msg.
  split.
  { unfold limiter_with, rateLimit.
    change (RateLimit.step o (now c) (store c !! keyGenerator d (req c))).1
      with (verdict d o st t r).
    now rewrite Hv. }
  split; [reflexivity|]. split; [reflexivity|]. split; [reflexivity|].
  split.
  { intros Hmax Hwin. subst msg. unfold rejection_message.
    rewrite Hmax, Hwin. vm_compute. reflexivity. }
  eexists. split; [now apply app_rejected|].
  unfold RateLimitError. rewrite handle_error_typed. reflexivity.
Qed.

Lemma rejection_forwarded_as_rate_limit_error_witness :
  exists c2,
    app_with production sample_deps max_2 two_hits 30 (request GET "/health" "10.0.0.1")
      = Finished c2 /\
    exists hs,
      trace c2 =
        [Send {| status := 429;
                 body := Envelope RATE_LIMIT
                   "You exceeded the request limit. Allowed 2 requests per 1 minute.";
                 headers := hs |}].
Proof.
  destruct (rejection_forwarded_as_rate_limit_error production sample_deps max_2
              two_hits 30 (request GET "/health" "10.0.0.1"))
    as (_ & _ & _ & _ & _ & c2 & Happ & Htrace).
  - reflexivity.
  - vm_compute. reflexivity.
  - exists c2. split; [exact Happ|]. eexists. exact Htrace.
Defined.

(** * Rate-limit headers *)

Section Headers.

Variable cfg : Config.
Variable d : Deps.

Lemma carries_insert n v h :
  n ∉ RateLimit.legacy_names -> carries h -> carries (<[n := v]> h).
Proof.
  intros Hn [Hstd Hleg]. split.
  - intros m Hm. destruct (decide (n = m)) as [->|Hne].
    + rewrite lookup_insert_eq. eauto.
    + rewrite lookup_insert_ne by exact Hne. now apply Hstd.
  - intros m Hm. rewrite lookup_insert_ne; [now apply Hleg|].
    intros ->. now apply Hn.
Qed.

Lemma no_legacy_insert n v h :
  n ∉ RateLimit.legacy_names -> no_legacy h -> no_legacy (<[n := v]> h).
Proof.
  intros Hn Hleg m Hm. rewrite lookup_insert_ne; [now apply Hleg|].
  intros ->. now apply Hn.
Qed.

Lemma std_not_legacy n :
  n ∈ RateLimit.standard_names -> n ∉ RateLimit.legacy_names.
Proof.
  unfold RateLimit.standard_names, RateLimit.legacy_names.
  intros Hn. repeat (apply elem_of_cons in Hn as [->|Hn]);
    [| | |now apply elem_of_nil in Hn];
    intros Hm; repeat (apply elem_of_cons in Hm as [Hm|Hm]; [discriminate Hm|]);
    now apply elem_of_nil in Hm.
Qed.

(** With the options of [src/app.ts] the limiter writes the standard
    triple and no legacy header. *)
Lemma carries_setHeaders o t w h :
  RateLimit.standardHeaders o = true -> RateLimit.legacyHeaders o = false ->
  no_legacy h -> carries (RateLimit.setHeaders o t w h).
Proof.
  intros Hstd Hleg Hh. unfold RateLimit.setHeaders. rewrite Hstd, Hleg.
  unfold RateLimit.set_all, RateLimit.header_values. cbn [zip zip_with foldr fst snd RateLimit.standard_names].
  split.
  - intros n Hn. unfold RateLimit.standard_names in Hn.
    repeat (apply elem_of_cons in Hn as [->|Hn]);
      [| | |now apply elem_of_nil in Hn].
    + rewrite lookup_insert_eq. eauto.
    + rewrite lookup_insert_ne by discriminate. rewrite lookup_insert_eq. eauto.
    + rewrite !lookup_insert_ne by discriminate. rewrite lookup_insert_eq. eauto.
  - repeat apply no_legacy_insert; try exact Hh;
      apply std_not_legacy; unfold RateLimit.standard_names;
      repeat constructor.
Qed.

Lemma no_legacy_empty : no_legacy ∅.
Proof. intros n _. apply lookup_empty. Qed.

Lemma labelled_emit e c :
  match e with Send r => carries (headers r) | _ => True end ->
  labelled c -> labelled (emit e c).
Proof.
  intros He [Hh Hs]. split; [exact Hh|].
  cbn [trace emit]. rewrite sent_app. apply Forall_app. split; [exact Hs|].
  destruct e; cbn; [constructor..|].
  constructor; [exact He|constructor].
Qed.

Lemma labelled_send s b c : labelled c -> labelled (send s b c).
Proof. intros H. apply labelled_emit; [apply H|exact H]. Qed.

Lemma labelled_headers h c :
  carries h -> labelled c -> labelled (with_headers h c).
Proof. intros Hh [_ Hs]. now split. Qed.

Lemma labelled_parsed c : labelled c -> labelled (with_parsed c).
Proof. intros H. exact H. Qed.

Lemma labelled_run g h c :
  labelled c -> step_ok (fun _ => labelled) labelled (run_handler g h c).
Proof.
  intros H. unfold run_handler.
  assert (labelled (emit (Enter g) c)) by now apply labelled_emit.
  destruct (h (req c)); cbn; [now apply labelled_send|assumption..].
Qed.

Lemma labelled_route (b : bool) g h c :
  labelled c ->
  step_ok (fun _ => labelled) labelled (if b then run_handler g h c else Next c).
Proof. intros Hc. destruct b; [now apply labelled_run|exact Hc]. Qed.

Lemma plain_name n :
  n ∈ ["Vary"; "Access-Control-Allow-Origin"; "Access-Control-Allow-Credentials";
       "Access-Control-Allow-Methods"; "Retry-After"] ->
  n ∉ RateLimit.legacy_names.
Proof.
  intros Hn. repeat (apply elem_of_cons in Hn as [->|Hn]);
    [| | | | |now apply elem_of_nil in Hn];
    unfold RateLimit.legacy_names; intros Hm;
    repeat (apply elem_of_cons in Hm as [Hm|Hm]; [discriminate Hm|]);
    now apply elem_of_nil in Hm.
Qed.

Lemma carries_cors p h : carries h -> carries (cors_headers p h).
Proof.
  intros H. unfold cors_headers.
  destruct (allowCredentials p); repeat apply carries_insert; try exact H;
    apply plain_name; repeat constructor.
Qed.

Lemma labelled_error_stage e c :
  labelled c -> labelled (handle_error cfg d e c).
Proof.
  intros Hc. unfold handle_error, errorHandler. destruct e as [ty i|i].
  - destruct (decide _); [apply labelled_emit; [exact Logic.I|]|];
      now apply labelled_send.
  - assert (labelled (console_error (log_line i (req c)) c))
      by (apply labelled_emit; [exact Logic.I|assumption]).
    destruct (String.eqb _ _); now apply labelled_send.
Qed.

Lemma labelled_parser ty limit c :
  labelled c ->
  match body_parser (runtime d) ty limit with
  | Mw f => step_ok (fun _ => labelled) labelled (f c)
  | ErrMw _ => True
  end.
Proof.
  intros Hc. cbn. destruct (decide _); [|assumption].
  destruct (_ <? _); [assumption|].
  destruct (bodySyntaxError _); [assumption|now apply labelled_parsed].
Qed.

Lemma labelled_cors o c :
  labelled c ->
  match cors o with
  | Mw f => step_ok (fun _ => labelled) labelled (f c)
  | ErrMw _ => True
  end.
Proof.
  intros Hc. cbn.
  assert (Hc1 : labelled (with_headers (cors_headers (policy o) (resHeaders c)) c)).
  { apply labelled_headers; [|assumption]. apply carries_cors, Hc. }
  destruct (method (req c)); try assumption.
  cbn [step_ok]. apply labelled_send. apply labelled_headers; [|assumption].
  apply carries_insert; [|apply Hc1].
  apply plain_name; repeat constructor.
Qed.

(** Behind the limiter every layer keeps the triple on the response. *)
Lemma downstream_labelled :
  Forall (layer_ok (fun _ => labelled) labelled) (downstream cfg d).
Proof.
  unfold downstream, app_stack, app_stack_with. cbn [drop].
  repeat (apply List.Forall_cons); try apply List.Forall_nil.
  - intros c Hc. now apply (labelled_parser JsonBody).
  - intros c Hc. now apply (labelled_parser UrlencodedBody).
  - intros c Hc. now apply (labelled_cors (http_cors cfg)).
  - intros c Hc. exact Hc.
  - intros c Hc. exact Hc.
  - intros c Hc. now apply labelled_route.
  - intros c Hc. now apply labelled_route.
  - intros c Hc. now apply labelled_route.
  - intros c Hc. now apply labelled_route.
  - intros c Hc. now apply labelled_route.
  - intros e c Hc. rewrite errorHandler_ends. now apply labelled_error_stage.
Qed.

Lemma labelled_final p c :
  labelled c -> labelled (final (dispatch (downstream cfg d) p c)).
Proof.
  intros Hc.
  pose proof (dispatch_ok (fun _ => labelled) labelled _ downstream_labelled p c Hc) as H.
  now destruct (dispatch (downstream cfg d) p c).
Qed.

Lemma labelled_counted k st t r :
  labelled (counted limiter_options k (arrive st t r)).
Proof.
  split; [|constructor].
  apply carries_setHeaders; [reflexivity..|apply no_legacy_empty].
Qed.

Lemma labelled_retry_after k st t r :
  labelled (retry_after limiter_options k (arrive st t r)).
Proof.
  split; [|constructor].
  apply carries_insert; [apply plain_name; repeat constructor|].
  apply labelled_counted.
Qed.

End Headers.

(** C7, as the code has it. Every response the application sends
    for a request that is not answered by the root route carries the
    standard rate-limit headers (limit, remaining, reset); the response
    of the root route, which is registered ahead of the limiter, carries
    no header of the limiter at all; no response carries a legacy
    rate-limit header. *)
Theorem rate_limit_headers_behind_limiter (cfg : Config) (d : Deps)
    (st : gmap string RateLimit.RateWindow) (t : Z) (r : Request)
    (resp : Response) :
  resp ∈ sent (trace (final (app cfg d st t r))) ->
  (forall n, n ∈ RateLimit.legacy_names -> headers resp !! n = None) /\
  (at_root r = false ->
     forall n, n ∈ RateLimit.standard_names -> is_Some (headers resp !! n)) /\
  (at_root r = true -> headers resp = ∅).
Proof.
  change (app cfg d st t r) with (app_with cfg d limiter_options st t r).
  destruct (at_root r) eqn:Hroot.
  - rewrite (app_at_root cfg d _ st t r Hroot). cbn.
    intros Hin. apply list_elem_of_singleton in Hin. subst resp. cbn.
    split; [apply no_legacy_empty|]. split; [discriminate|reflexivity].
  - intros Hin.
    assert (Hl : labelled (final (app_with cfg d limiter_options st t r))).
    { destruct (verdict d limiter_options st t r) eqn:Hv.
      - rewrite (app_admitted cfg d _ st t r Hroot Hv).
        apply labelled_final, labelled_counted.
      - rewrite (app_rejected cfg d _ st t r Hroot Hv). cbn [final].
        apply labelled_error_stage, labelled_retry_after. }
    destruct Hl as [_ Hall]. rewrite List.Forall_forall in Hall.
    apply list_elem_of_In in Hin. destruct (Hall resp Hin) as [Hstd Hleg].
    split; [exact Hleg|]. split; [intros _; exact Hstd|discriminate].
Qed.

Lemma rate_limit_headers_behind_limiter_witness :
  is_Some (headers (raw 200 healthy health_ctx) !! "RateLimit-Limit") /\
  is_Some (headers (raw 200 healthy health_ctx) !! "RateLimit-Remaining") /\
  is_Some (headers (raw 200 healthy health_ctx) !! "RateLimit-Reset") /\
  headers (raw 200 healthy health_ctx) !! "X-RateLimit-Limit" = None.
Proof.
  destruct (rate_limit_headers_behind_limiter production sample_deps ∅ 1000
              (request GET "/health" "10.0.0.1") (raw 200 healthy health_ctx))
    as (Hleg & Hstd & _).
  - vm_compute. constructor.
  - specialize (Hstd eq_refl).
    split; [|split; [|split]]; [apply Hstd..|apply Hleg]; repeat constructor.
Defined.

(** The root route answers without any rate-limit header. *)
Lemma root_response_without_rate_limit_headers :
  ~ (forall resp,
       resp ∈ sent (trace (final (app production sample_deps ∅ 1000
                                     (request GET "/" "10.0.0.1")))) ->
       forall n, n ∈ RateLimit.standard_names -> is_Some (headers resp !! n)).
Proof.
  intros H.
  specialize (H (raw 200 banner (arrive ∅ 1000 (request GET "/" "10.0.0.1")))).
  destruct H with (n := "RateLimit-Limit") as [v Hv]; [constructor..|].
  discriminate Hv.
Qed.

(** * Paths outside the route table *)

Section Unrouted.

Variable cfg : Config.
Variable d : Deps.

Lemma registered_false p :
  registered p = false ->
  route_matches "/" p = false /\ route_matches "/health" p = false /\
  mount_matches "/auth" p = false /\ mount_matches "/api/chat" p = false /\
  mount_matches "/api/messages" p = false /\ mount_matches "/public" p = false.
Proof.
  unfold registered. rewrite !orb_false_iff. tauto.
Qed.

Lemma untouched_emit e c :
  match e with
  | Enter _ => False
  | Send r => is_not_found (body r) = false
  | ConsoleError _ => True
  end ->
  untouched c -> untouched (emit e c).
Proof.
  intros He [Hent Hsent]. unfold untouched. cbn [trace emit].
  rewrite entered_app, sent_app, Hent. split.
  - destruct e; [reflexivity|contradiction|reflexivity].
  - apply Forall_app. split; [exact Hsent|].
    destruct e; cbn; [constructor|contradiction|].
    constructor; [exact He|constructor].
Qed.

Lemma unrouted_error_stage e c :
  not_found_pending (Some e) = false ->
  untouched c -> untouched (handle_error cfg d e c).
Proof.
  intros He Hc. unfold handle_error, errorHandler. destruct e as [ty i|i].
  - assert (untouched (handle ty i c)).
    { apply untouched_emit; [|exact Hc]. cbn. now destruct ty. }
    destruct (decide _); [|assumption].
    now apply untouched_emit.
  - assert (untouched (console_error (log_line i (req c)) c))
      by now apply untouched_emit.
    destruct (String.eqb _ _); now apply untouched_emit.
Qed.

Lemma unrouted_miss (b : bool) g h c :
  b = false -> unrouted None c ->
  step_ok unrouted untouched (if b then run_handler g h c else Next c).
Proof. intros -> (Hreg & _ & Hc). cbn. now split. Qed.

Lemma downstream_unrouted :
  Forall (layer_ok unrouted untouched) (downstream cfg d).
Proof.
  unfold downstream, app_stack, app_stack_with. cbn [drop].
  repeat (apply List.Forall_cons); try apply List.Forall_nil.
  - intros c (Hreg & _ & Hc). cbn. destruct (decide _); [|now split].
    destruct (_ <? _); [now split|].
    destruct (bodySyntaxError _); now split.
  - intros c (Hreg & _ & Hc). cbn. destruct (decide _); [|now split].
    destruct (_ <? _); [now split|].
    destruct (bodySyntaxError _); now split.
  - intros c (Hreg & _ & Hc). cbn.
    destruct (method (req c)); try (now split).
    cbn. now apply untouched_emit.
  - intros c Hc. exact Hc.
  - intros c Hc. exact Hc.
  - intros c Hc. apply unrouted_miss; [|exact Hc].
    destruct Hc as [Hreg _]. apply registered_false in Hreg as (_ & -> & _).
    apply andb_false_r.
  - intros c Hc. apply unrouted_miss; [|exact Hc].
    destruct Hc as [Hreg _]. now apply registered_false in Hreg as (_ & _ & -> & _).
  - intros c Hc. apply unrouted_miss; [|exact Hc].
    destruct Hc as [Hreg _]. now apply registered_false in Hreg as (_ & _ & _ & -> & _).
  - intros c Hc. apply unrouted_miss; [|exact Hc].
    destruct Hc as [Hreg _]. now apply registered_false in Hreg as (_ & _ & _ & _ & -> & _).
  - intros c Hc. apply unrouted_miss; [|exact Hc].
    destruct Hc as [Hreg _]. now apply registered_false in Hreg as (_ & _ & _ & _ & _ & ->).
  - intros e c (_ & He & Hc). rewrite errorHandler_ends.
    now apply unrouted_error_stage.
Qed.

Lemma unrouted_final p c :
  unrouted p c ->
  untouched (final (dispatch (downstream cfg d) p c)) /\
  forall p' c', dispatch (downstream cfg d) p c = Unhandled p' c' ->
                not_found_pending p' = false.
Proof.
  intros Hc.
  pose proof (dispatch_ok unrouted untouched _ downstream_unrouted p c Hc) as H.
  destruct (dispatch (downstream cfg d) p c) as [c1|p1 c1]; cbn in H |- *.
  - split; [exact H|discriminate].
  - split; [apply H|]. intros p' c' [= <- <-]. apply H.
Qed.

Lemma parser_other ty limit rest c :
  bodyType (req c) <> ty ->
  dispatch (body_parser (runtime d) ty limit :: rest) None c = dispatch rest None c.
Proof.
  intros H. cbn. destruct (decide (bodyType (req c) = ty)); [contradiction|reflexivity].
Qed.

Lemma parser_accepts ty limit rest c :
  bodyType (req c) = ty -> (limit <? bodyLength (req c)) = false ->
  bodySyntaxError (req c) = None ->
  dispatch (body_parser (runtime d) ty limit :: rest) None c =
    dispatch rest None (with_parsed c).
Proof.
  intros Hty Hlen Hs. cbn.
  destruct (decide (bodyType (req c) = ty)); [|contradiction].
  now rewrite Hlen, Hs.
Qed.

Lemma parser_too_large ty limit rest c :
  bodyType (req c) = ty -> (limit <? bodyLength (req c)) = true ->
  dispatch (body_parser (runtime d) ty limit :: rest) None c =
    dispatch rest (Some (parser_error (runtime d) "request entity too large")) c.
Proof.
  intros Hty Hlen. cbn.
  destruct (decide (bodyType (req c) = ty)); [|contradiction].
  now rewrite Hlen.
Qed.

Lemma cors_passes o rest c :
  method (req c) <> OPTIONS ->
  dispatch (cors o :: rest) None c =
    dispatch rest None (with_headers (cors_headers (policy o) (resHeaders c)) c).
Proof. intros H. cbn. now destruct (method (req c)). Qed.

Lemma pass_through_next rest c :
  dispatch (pass_through :: rest) None c = dispatch rest None c.
Proof. reflexivity. Qed.

(** With nothing to parse or refuse, no preflight and no matching route,
    the request runs off the end of the stack. *)
Lemma downstream_falls_through c :
  registered (path (req c)) = false ->
  refused (kb 16) (req c) = false ->
  method (req c) <> OPTIONS ->
  exists c', dispatch (downstream cfg d) None c = Unhandled None c' /\
             trace c' = trace c.
Proof.
  intros Hreg Href Hm.
  apply registered_false in Hreg as (_ & Hh & Ha & Hc & Hms & Hp).
  unfold downstream, app_stack, app_stack_with. cbn [drop].
  assert (Hparse : exists c1,
            req c1 = req c /\ trace c1 = trace c /\
            forall rest,
              dispatch (body_parser (runtime d) JsonBody (kb 16)
                        :: body_parser (runtime d) UrlencodedBody (kb 16) :: rest)
                None c = dispatch rest None c1).
  { unfold refused in Href.
    destruct (bodyType (req c)) eqn:Hty.
    - exists c. repeat split. intros rest.
      now rewrite !parser_other by (rewrite Hty; discriminate).
    - apply orb_false_iff in Href as [Hlen Hsyn].
      destruct (bodySyntaxError (req c)) eqn:Hs; [discriminate|].
      exists (with_parsed c). repeat split. intros rest.
      rewrite parser_accepts by assumption.
      now rewrite parser_other by (cbn; rewrite Hty; discriminate).
    - apply orb_false_iff in Href as [Hlen Hsyn].
      destruct (bodySyntaxError (req c)) eqn:Hs; [discriminate|].
      exists (with_parsed c). repeat split. intros rest.
      rewrite parser_other by (rewrite Hty; discriminate).
      now rewrite parser_accepts by assumption.
    - exists c. repeat split. intros rest.
      now rewrite !parser_other by (rewrite Hty; discriminate). }
  destruct Hparse as (c1 & Hreq & Htr & ->).
  eexists. split.
  - rewrite cors_passes by now rewrite Hreq.
    rewrite !pass_through_next.
    rewrite get_miss by (cbn [req with_headers]; rewrite Hreq, Hh; apply andb_false_r).
    rewrite !use_miss by (cbn [req with_headers]; rewrite Hreq; assumption).
    reflexivity.
  - exact Htr.
Qed.

End Unrouted.

(** C4, as the code has it. For a path that matches none of the
    registered groups the application invokes no route handler, raises
    no [NOT_FOUND] error and sends no [NOT_FOUND] answer. When the
    limiter admits the request, the body parsers have nothing to refuse
    and it is not a preflight, no layer answers at all: the request runs
    off the end of the stack with no error pending and is left to the
    framework's own final handler. *)
Theorem unregistered_path_falls_through (cfg : Config) (d : Deps)
    (st : gmap string RateLimit.RateWindow) (t : Z) (r : Request) :
  registered (path r) = false ->
  let o := app cfg d st t r in
  entered (trace (final o)) = [] /\
  (forall resp msg,
     resp ∈ sent (trace (final o)) -> body resp <> Envelope NOT_FOUND msg) /\
  (forall i c, o <> Unhandled (Some (Typed NOT_FOUND i)) c) /\
  (verdict d limiter_options st t r = RateLimit.Allowed ->
   refused (kb 16) r = false -> method r <> OPTIONS ->
   exists c, o = Unhandled None c /\ trace c = []).
Proof.
  intros Hreg o. subst o.
  change (app cfg d st t r) with (app_with cfg d limiter_options st t r).
  assert (Hroot : at_root r = false).
  { unfold at_root. apply registered_false in Hreg as (-> & _). apply andb_false_r. }
  assert (Hstart : forall k, unrouted None (counted limiter_options k (arrive st t r))).
  { intros k. split; [exact Hreg|]. split; [reflexivity|]. split; [reflexivity|constructor]. }
  assert (Hall : untouched (final (app_with cfg d limiter_options st t r)) /\
                 forall p c, app_with cfg d limiter_options st t r = Unhandled p c ->
                             not_found_pending p = false).
  { destruct (verdict d limiter_options st t r) eqn:Hv.
    - rewrite (app_admitted cfg d _ st t r Hroot Hv). apply unrouted_final, Hstart.
    - rewrite (app_rejected cfg d _ st t r Hroot Hv). split; [|discriminate].
      apply unrouted_error_stage; [reflexivity|]. split; [reflexivity|constructor]. }
  destruct Hall as [[Hent Hsent] Hpend].
  split; [exact Hent|]. split; [|split].
  - intros resp msg Hin Hbody. rewrite List.Forall_forall in Hsent.
    apply list_elem_of_In in Hin. specialize (Hsent resp Hin).
    rewrite Hbody in Hsent. discriminate Hsent.
  - intros i c Ho. specialize (Hpend _ _ Ho). discriminate Hpend.
  - intros Hv Href Hm. rewrite (app_admitted cfg d _ st t r Hroot Hv).
    apply (downstream_falls_through cfg d
             (counted limiter_options (keyGenerator d r) (arrive st t r)));
      assumption.
Qed.

Lemma unregistered_path_falls_through_witness :
  exists c,
    app production sample_deps ∅ 1000 (request GET "/unknown/path" "10.0.0.1")
      = Unhandled None c /\ trace c = [].
Proof.
  destruct (unregistered_path_falls_through production sample_deps ∅ 1000
              (request GET "/unknown/path" "10.0.0.1"))
    as (_ & _ & _ & Hfall).
  - reflexivity.
  - apply Hfall; [reflexivity|reflexivity|discriminate].
Defined.

(** A request for [/unknown/path] gets no [NOT_FOUND] answer from the
    application. *)
Lemma unknown_path_gets_no_not_found :
  registered "/unknown/path" = false /\
  ~ (exists resp msg,
       resp ∈ sent (trace (final (app production sample_deps ∅ 1000
                                    (request GET "/unknown/path" "10.0.0.1")))) /\
       status resp = 404 /\ body resp = Envelope NOT_FOUND msg).
Proof.
  split; [reflexivity|].
  intros (resp & msg & Hin & _).
  assert (Hnone : sent (trace (final (app production sample_deps ∅ 1000
                                       (request GET "/unknown/path" "10.0.0.1")))) = [])
    by (vm_compute; reflexivity).
  rewrite Hnone in Hin. now apply elem_of_nil in Hin.
Qed.

(** * The body limit *)

Section BodyLimit.

Variable cfg : Config.
Variable d : Deps.
Variable r : Request.

Lemma small_frame c s :
  parsed_small r c ->
  req (ctx_of s) = req c -> parsedBody (ctx_of s) = parsedBody c ->
  step_ok (fun _ => parsed_small r) (parsed_small r) s.
Proof.
  intros [Hreq Hp] Hr Hb.
  assert (parsed_small r (ctx_of s)).
  { split; [now rewrite Hr|]. now rewrite Hb. }
  now destruct s.
Qed.

Lemma small_route (b : bool) g h c :
  parsed_small r c ->
  step_ok (fun _ => parsed_small r) (parsed_small r)
    (if b then run_handler g h c else Next c).
Proof.
  intros Hc. apply (small_frame c); [exact Hc|..];
    destruct b; try reflexivity; unfold run_handler; now destruct (h (req c)).
Qed.

Lemma small_parser ty c :
  ty = JsonBody \/ ty = UrlencodedBody ->
  parsed_small r c ->
  match body_parser (runtime d) ty (kb 16) with
  | Mw f => step_ok (fun _ => parsed_small r) (parsed_small r) (f c)
  | ErrMw _ => True
  end.
Proof.
  intros Hty [Hreq Hp]. cbn.
  destruct (decide (bodyType (req c) = ty)) as [Heq|]; [|now split].
  destruct (kb 16 <? bodyLength (req c)) eqn:Hlen; [now split|].
  destruct (bodySyntaxError (req c)); [now split|].
  cbn. split; [exact Hreq|]. intros _. rewrite <- Hreq, Heq.
  split; [exact Hty|]. now apply Z.ltb_ge.
Qed.

Lemma small_error_stage e c :
  req (handle_error cfg d e c) = req c /\
  parsedBody (handle_error cfg d e c) = parsedBody c.
Proof.
  unfold handle_error, errorHandler. destruct e as [ty i|i].
  - now destruct (decide _).
  - now destruct (String.eqb _ _).
Qed.

Lemma stack_parsed_small o :
  Forall (layer_ok (fun _ => parsed_small r) (parsed_small r))
    (app_stack_with cfg d o).
Proof.
  unfold app_stack_with.
  repeat (apply List.Forall_cons); try apply List.Forall_nil.
  - intros c Hc. now apply small_route.
  - intros c Hc. exact Hc.
  - intros c Hc. apply (small_frame c); [exact Hc|..];
      unfold limiter_with, rateLimit; now destruct (RateLimit.step _ _ _).1.
  - intros c Hc. apply (small_parser JsonBody); [now left|exact Hc].
  - intros c Hc. apply (small_parser UrlencodedBody); [now right|exact Hc].
  - intros c Hc. apply (small_frame c); [exact Hc|..]; cbn;
      now destruct (method (req c)).
  - intros c Hc. exact Hc.
  - intros c Hc. exact Hc.
  - intros c Hc. now apply small_route.
  - intros c Hc. now apply small_route.
  - intros c Hc. now apply small_route.
  - intros c Hc. now apply small_route.
  - intros c Hc. now apply small_route.
  - intros e c Hc. rewrite errorHandler_ends.
    apply (small_frame c); [exact Hc|apply small_error_stage..].
Qed.

(** A body over the limit, of either parsed media type, goes from its
    parser straight to the error-handling stage. *)
Lemma downstream_too_large c :
  bodyType (req c) = JsonBody \/ bodyType (req c) = UrlencodedBody ->
  kb 16 < bodyLength (req c) ->
  dispatch (downstream cfg d) None c =
    Finished (handle_error cfg d (Untyped (too_large d)) c).
Proof.
  intros Hty Hlen. apply Z.ltb_lt in Hlen.
  rewrite <- downstream_error.
  unfold downstream, app_stack, app_stack_with. cbn [drop].
  destruct Hty as [Hty|Hty].
  - now rewrite parser_too_large.
  - rewrite parser_other by (rewrite Hty; discriminate).
    now rewrite parser_too_large.
Qed.

End BodyLimit.

(** C10, as the code has it. A body is parsed only if it is JSON or
    urlencoded and at most 16kb (16384 bytes). A request with a larger
    body of either type that is not answered by the root route and is
    admitted by the limiter is stopped by its parser: the error goes to
    the error-handling stage, which logs it and answers with status 500,
    and no route handler is invoked. *)
Theorem body_limit_behind_limiter (cfg : Config) (d : Deps)
    (st : gmap string RateLimit.RateWindow) (t : Z) (r : Request) :
  let o := app cfg d st t r in
  kb 16 = 16384 /\
  (parsedBody (final o) = true ->
     (bodyType r = JsonBody \/ bodyType r = UrlencodedBody) /\
     bodyLength r <= 16384) /\
  (bodyType r = JsonBody \/ bodyType r = UrlencodedBody ->
   16384 < bodyLength r ->
   at_root r = false ->
   verdict d limiter_options st t r = RateLimit.Allowed ->
   exists c resp,
     o = Finished c /\ parsedBody c = false /\ entered (trace c) = [] /\
     logged (trace c) = [log_line (too_large d) r] /\
     sent (trace c) = [resp] /\ status resp = 500).
Proof.
  intros o. subst o. split; [reflexivity|]. split.
  - pose proof (dispatch_ok (fun _ => parsed_small r) (parsed_small r) _
                  (stack_parsed_small cfg d r limiter_options) None
                  (arrive st t r)) as H.
    change (dispatch (app_stack_with cfg d limiter_options) None (arrive st t r))
      with (app cfg d st t r) in H.
    assert (Hfin : parsed_small r (final (app cfg d st t r))).
    { assert (Hstart : parsed_small r (arrive st t r))
        by (split; [reflexivity|discriminate]).
      specialize (H Hstart). now destruct (app cfg d st t r). }
    destruct Hfin as [_ Hfin]. exact Hfin.
  - intros Hty Hlen Hroot Hv.
    change (app cfg d st t r) with (app_with cfg d limiter_options st t r).
    rewrite (app_admitted cfg d _ st t r Hroot Hv).
    rewrite downstream_too_large by assumption.
    eexists. eexists. split; [reflexivity|].
    split; [apply small_error_stage|].
    rewrite handle_error_untyped. cbn.
    repeat split. now destruct (String.eqb _ _).
Qed.

Lemma body_limit_behind_limiter_witness :
  exists c resp,
    app production sample_deps ∅ 1000
      (with_body JsonBody 20000 (request POST "/auth/login" "10.0.0.1")) = Finished c /\
    parsedBody c = false /\ entered (trace c) = [] /\
    sent (trace c) = [resp] /\ status resp = 500.
Proof.
  destruct (body_limit_behind_limiter production sample_deps ∅ 1000
              (with_body JsonBody 20000 (request POST "/auth/login" "10.0.0.1")))
    as (_ & _ & Hbig).
  destruct Hbig as (c & resp & Ho & Hp & He & _ & Hs & Hst).
  - now left.
  - reflexivity.
  - reflexivity.
  - reflexivity.
  - exists c, resp. repeat split; assumption.
Defined.

(** A [GET /] with a JSON body of 20000 bytes is answered by the root
    route: it is not refused, and a route handler is reached. *)
Lemma oversized_body_reaches_root_route :
  bodyType big_root_request = JsonBody /\
  kb 16 < bodyLength big_root_request /\
  sent (trace (final (app production sample_deps ∅ 1000 big_root_request))) =
    [raw 200 banner (arrive ∅ 1000 big_root_request)] /\
  ~ (entered (trace (final (app production sample_deps ∅ 1000 big_root_request))) = []).
Proof.
  split; [reflexivity|]. split; [reflexivity|]. split; [reflexivity|].
  discriminate.
Qed.

(** * One response per request *)

Section Answers.

Variable cfg : Config.
Variable d : Deps.
Variable r : Request.

Lemma silent_frame c c' :
  silent r c -> req c' = req c -> trace c' = trace c -> silent r c'.
Proof. intros (Hr & Hs & Hl) Hreq Htr. unfold silent. now rewrite Hreq, Htr. Qed.

Lemma silent_enter g c : silent r c -> silent r (emit (Enter g) c).
Proof.
  intros (Hr & Hs & Hl). unfold silent. cbn [req trace emit].
  now rewrite sent_app, logged_app, Hs, Hl.
Qed.

Lemma answered_send s b c : silent r c -> answered r (send s b c).
Proof.
  intros (Hr & Hs & Hl). split; [exact Hr|]. eexists. unfold send.
  cbn [trace emit]. rewrite sent_app, logged_app, Hs, Hl.
  split; [reflexivity|now left].
Qed.

Lemma answers_route (b : bool) g h c :
  silent r c ->
  step_ok (fun _ => silent r) (answered r)
    (if b then run_handler g h c else Next c).
Proof.
  intros Hc. destruct b; [|exact Hc]. unfold run_handler.
  pose proof (silent_enter g c Hc) as Hc1.
  destruct (h (req c)); cbn; [now apply answered_send|assumption..].
Qed.

Lemma answers_error_stage e c :
  silent r c -> answered r (handle_error cfg d e c).
Proof.
  intros (Hr & Hs & Hl). unfold answered.
  destruct e as [ty i|i].
  - rewrite handle_error_typed, sent_app, logged_app, Hs, Hl.
    split; [now destruct (small_error_stage cfg d (Typed ty i) c) as [-> _]|].
    eexists. split; [now destruct (decide (ty = INTERNAL))|].
    destruct (decide (ty = INTERNAL)) as [->|]; [right|now left].
    split; [reflexivity|]. exists i. now rewrite Hr.
  - rewrite handle_error_untyped, sent_app, logged_app, Hs, Hl.
    split; [now destruct (small_error_stage cfg d (Untyped i) c) as [-> _]|].
    eexists. split; [reflexivity|]. right.
    split; [now destruct (String.eqb _ _)|]. exists i. now rewrite Hr.
Qed.

Lemma stack_answers o :
  Forall (layer_ok (fun _ => silent r) (answered r)) (app_stack_with cfg d o).
Proof.
  unfold app_stack_with.
  repeat (apply List.Forall_cons); try apply List.Forall_nil.
  - intros c Hc. now apply answers_route.
  - intros c Hc. exact Hc.
  - intros c Hc. unfold limiter_with, rateLimit.
    destruct (RateLimit.step _ _ _).1; cbn; now apply (silent_frame c).
  - intros c Hc. cbn. destruct (decide _); [|exact Hc].
    destruct (_ <? _); [exact Hc|].
    destruct (bodySyntaxError _); [exact Hc|now apply (silent_frame c)].
  - intros c Hc. cbn. destruct (decide _); [|exact Hc].
    destruct (_ <? _); [exact Hc|].
    destruct (bodySyntaxError _); [exact Hc|now apply (silent_frame c)].
  - intros c Hc. cbn.
    destruct (method (req c)); try (now apply (silent_frame c)).
    cbn. apply answered_send. now apply (silent_frame c).
  - intros c Hc. exact Hc.
  - intros c Hc. exact Hc.
  - intros c Hc. now apply answers_route.
  - intros c Hc. now apply answers_route.
  - intros c Hc. now apply answers_route.
  - intros c Hc. now apply answers_route.
  - intros c Hc. now apply answers_route.
  - intros e c Hc. rewrite errorHandler_ends. now apply answers_error_stage.
Qed.

Lemma app_answers st t :
  outcome_ok (fun _ => silent r) (answered r) (app cfg d st t r).
Proof.
  apply (dispatch_ok _ _ _ (stack_answers limiter_options)).
  now split.
Qed.

End Answers.

(** The last layer takes every pending error and ends the response, so
    the walk never leaves an error behind. *)
Lemma dispatch_closed f :
  (forall e c, exists c', f e c = End c') ->
  forall ls p c p' c',
    dispatch (ls ++ [ErrMw f]) p c = Unhandled p' c' -> p' = None.
Proof.
  intros Hf ls. induction ls as [|l rest IH]; intros p c p' c'.
  - destruct p as [e|]; cbn.
    + destruct (Hf e c) as [c1 ->]. discriminate.
    + now intros [= <- _].
  - destruct l as [g|g], p as [e|]; cbn.
    + apply IH.
    + destruct (g c); [apply IH..|discriminate].
    + destruct (g e c); [apply IH..|discriminate].
    + apply IH.
Qed.

Lemma app_leaves_no_error (cfg : Config) (d : Deps)
    (st : gmap string RateLimit.RateWindow) (t : Z) (r : Request) p c :
  app cfg d st t r = Unhandled p c -> p = None.
Proof.
  assert (Hsplit : app_stack cfg d =
            firstn 13 (app_stack cfg d) ++ [ErrMw (errorHandler cfg d)])
    by reflexivity.
  unfold app. rewrite Hsplit. apply dispatch_closed.
  intros e' c0. rewrite errorHandler_ends. eauto.
Qed.

(** X1. Every error forwarded while a request is served, by a route
    handler, a body parser or the limiter, is taken by the
    error-handling middleware, which is registered last and never calls
    [next]: when the application leaves a request to the framework's
    final handler, no error is pending. *)
Theorem no_error_escapes (cfg : Config) (d : Deps)
    (st : gmap string RateLimit.RateWindow) (t : Z) (r : Request)
    (p : option Error) (c : Ctx) :
  app cfg d st t r = Unhandled p c ->
  p = None /\ sent (trace c) = [] /\ logged (trace c) = [].
Proof.
  intros H. split; [exact (app_leaves_no_error cfg d st t r p c H)|].
  pose proof (app_answers cfg d r st t) as Ha. rewrite H in Ha.
  destruct Ha as (_ & Hs & Hl). now split.
Qed.

Lemma no_error_escapes_witness :
  exists c,
    app production sample_deps ∅ 1000 (request POST "/nowhere" "10.0.0.1")
      = Unhandled None c /\ sent (trace c) = [].
Proof.
  eexists. split; [reflexivity|].
  eapply (no_error_escapes production sample_deps ∅ 1000
            (request POST "/nowhere" "10.0.0.1")).
  reflexivity.
Defined.

(** X2. A request is answered at most once: whenever a layer ends the
    response, whichever it is and whatever the route handlers do,
    exactly one response has been sent. *)
Theorem one_response_per_request (cfg : Config) (d : Deps)
    (st : gmap string RateLimit.RateWindow) (t : Z) (r : Request) (c : Ctx) :
  app cfg d st t r = Finished c ->
  exists resp, sent (trace c) = [resp].
Proof.
  intros H. pose proof (app_answers cfg d r st t) as Ha. rewrite H in Ha.
  destruct Ha as (_ & resp & Hs & _). eauto.
Qed.

Lemma one_response_per_request_witness :
  exists resp,
    sent (trace (final (app development sample_deps ∅ 1000
                          (with_body JsonBody 20000
                             (request POST "/auth/login" "10.0.0.1")))))
      = [resp].
Proof.
  eapply (one_response_per_request development sample_deps ∅ 1000
            (with_body JsonBody 20000 (request POST "/auth/login" "10.0.0.1"))).
  reflexivity.
Defined.

(** X3. The code of [src/app.ts] calls [console.error] at most once per
    request, and only when the request is answered with status 500: a
    line written by [console.error] is the [500 - ...] line of an error
    raised for this request, and the one response sent has status 500.
    (The access line [morgan] prints on standard output is not a
    [console.error] call and is not part of the trace.) *)
Theorem console_only_with_500 (cfg : Config) (d : Deps)
    (st : gmap string RateLimit.RateWindow) (t : Z) (r : Request)
    (line : string) :
  line ∈ logged (trace (final (app cfg d st t r))) ->
  exists c resp i,
    app cfg d st t r = Finished c /\
    sent (trace c) = [resp] /\ status resp = 500 /\
    logged (trace c) = [line] /\ line = log_line i r.
Proof.
  pose proof (app_answers cfg d r st t) as H.
  destruct (app cfg d st t r) as [c|p c]; cbn in H |- *.
  - destruct H as (_ & resp & Hs & [Hl|(Hst & i & Hl)]); rewrite Hl; intros Hin.
    + now apply elem_of_nil in Hin.
    + apply list_elem_of_singleton in Hin. subst line.
      exists c, resp, i. repeat split; assumption.
  - destruct H as (_ & _ & Hl). rewrite Hl. intros Hin.
    now apply elem_of_nil in Hin.
Qed.

Lemma console_only_with_500_witness :
  exists c resp,
    app production sample_deps ∅ 1000
      (with_body JsonBody 20000 (request POST "/auth/login" "10.0.0.1"))
      = Finished c /\
    sent (trace c) = [resp] /\ status resp = 500.
Proof.
  destruct (console_only_with_500 production sample_deps ∅ 1000
              (with_body JsonBody 20000 (request POST "/auth/login" "10.0.0.1"))
              (log_line (too_large sample_deps)
                 (with_body JsonBody 20000 (request POST "/auth/login" "10.0.0.1"))))
    as (c & resp & i & Ho & Hs & Hst & _).
  - vm_compute. constructor.
  - exists c, resp. repeat split; assumption.
Defined.

(** * What is counted *)

Section Counting.

Variable cfg : Config.
Variable d : Deps.

Lemma same_request_refl c : same_request c c.
Proof. now split. Qed.

Lemma same_frame c0 c s :
  same_request c0 c ->
  req (ctx_of s) = req c -> store (ctx_of s) = store c -> now (ctx_of s) = now c ->
  step_ok (fun _ => same_request c0) (same_request c0) s.
Proof.
  intros (Hr & Hs & Hn) Hr' Hs' Hn'.
  assert (same_request c0 (ctx_of s)).
  { unfold same_request. now rewrite Hr', Hs', Hn'. }
  now destruct s.
Qed.

Lemma same_route (b : bool) g h c0 c :
  same_request c0 c ->
  step_ok (fun _ => same_request c0) (same_request c0)
    (if b then run_handler g h c else Next c).
Proof.
  intros Hc. apply (same_frame c0 c); [exact Hc|..];
    destruct b; try reflexivity; unfold run_handler; now destruct (h (req c)).
Qed.

Lemma same_error_stage e c :
  req (handle_error cfg d e c) = req c /\
  store (handle_error cfg d e c) = store c /\
  now (handle_error cfg d e c) = now c.
Proof.
  unfold handle_error, errorHandler. destruct e as [ty i|i].
  - now destruct (decide _).
  - now destruct (String.eqb _ _).
Qed.

(** No layer behind the limiter touches the limiter's table. *)
Lemma downstream_same c0 :
  Forall (layer_ok (fun _ => same_request c0) (same_request c0)) (downstream cfg d).
Proof.
  unfold downstream, app_stack, app_stack_with. cbn [drop].
  repeat (apply List.Forall_cons); try apply List.Forall_nil.
  - intros c Hc. apply (same_frame c0 c); [exact Hc|..]; cbn;
      destruct (decide _); try reflexivity;
      destruct (_ <? _); try reflexivity; now destruct (bodySyntaxError _).
  - intros c Hc. apply (same_frame c0 c); [exact Hc|..]; cbn;
      destruct (decide _); try reflexivity;
      destruct (_ <? _); try reflexivity; now destruct (bodySyntaxError _).
  - intros c Hc. apply (same_frame c0 c); [exact Hc|..]; cbn;
      now destruct (method (req c)).
  - intros c Hc. exact Hc.
  - intros c Hc. exact Hc.
  - intros c Hc. now apply same_route.
  - intros c Hc. now apply same_route.
  - intros c Hc. now apply same_route.
  - intros c Hc. now apply same_route.
  - intros c Hc. now apply same_route.
  - intros e c Hc. rewrite errorHandler_ends.
    apply (same_frame c0 c); [exact Hc|apply same_error_stage..].
Qed.

Lemma downstream_keeps_store p c :
  store (final (dispatch (downstream cfg d) p c)) = store c.
Proof.
  pose proof (dispatch_ok _ _ _ (downstream_same c) p c (same_request_refl c)) as H.
  destruct (dispatch (downstream cfg d) p c); apply H.
Qed.

End Counting.

(** X4. The root route is registered ahead of the limiter: a [GET] or
    [HEAD] of [/] is answered with the banner and status 200 whatever
    the limiter's table holds, also when the client's window is full;
    the request is not counted (the table is left as it was), no header
    is set on the response, the body is not parsed and nothing is
    logged. *)
Theorem root_route_is_not_limited (cfg : Config) (d : Deps)
    (st : gmap string RateLimit.RateWindow) (t : Z) (r : Request) :
  at_root r = true ->
  exists c,
    app cfg d st t r = Finished c /\
    trace c = [Enter Root;
               Send {| status := 200; body := Text banner; headers := ∅ |}] /\
    store c = st /\ parsedBody c = false.
Proof.
  intros Hroot. eexists. split.
  - change (app cfg d st t r) with (app_with cfg d limiter_options st t r).
    now apply app_at_root.
  - now repeat split.
Qed.

Lemma root_route_is_not_limited_witness :
  exists c,
    app production sample_deps full_window 1000 (request GET "/" "10.0.0.1")
      = Finished c /\
    sent (trace c) = [{| status := 200; body := Text banner; headers := ∅ |}] /\
    store c = full_window.
Proof.
  destruct (root_route_is_not_limited production sample_deps full_window 1000
              (request GET "/" "10.0.0.1"))
    as (c & Ho & Htr & Hst & _).
  - reflexivity.
  - exists c. split; [exact Ho|]. split; [now rewrite Htr|exact Hst].
Defined.

(** X5. Every request that is not answered by the root route is counted
    exactly once against its own key, whatever becomes of it afterwards
    (answered by a route, rejected, refused by a parser, a preflight, or
    left unanswered): the table it leaves is the one the counter
    computes, and the windows of all other keys are as before. *)
Theorem every_other_request_is_counted (cfg : Config) (d : Deps)
    (st : gmap string RateLimit.RateWindow) (t : Z) (r : Request) :
  at_root r = false ->
  let k := keyGenerator d r in
  let st' := store (final (app cfg d st t r)) in
  st' = (RateLimit.admit_request limiter_options t k st).2 /\
  st' !! k = Some (RateLimit.step limiter_options t (st !! k)).2 /\
  (forall j, j <> k -> st' !! j = st !! j).
Proof.
  intros Hroot k st'.
  assert (Hst : st' = (RateLimit.admit_request limiter_options t k st).2).
  { subst st'.
    change (app cfg d st t r) with (app_with cfg d limiter_options st t r).
    rewrite admit_step. cbn [snd].
    destruct (verdict d limiter_options st t r) eqn:Hv.
    - rewrite (app_admitted cfg d _ st t r Hroot Hv).
      now rewrite downstream_keeps_store.
    - rewrite (app_rejected cfg d _ st t r Hroot Hv). cbn [final].
      now destruct (same_error_stage cfg d
                      (RateLimitError d (rejection_message d limiter_options))
                      (retry_after limiter_options (keyGenerator d r) (arrive st t r)))
        as (_ & -> & _). }
  split; [exact Hst|]. rewrite Hst. split.
  - apply admit_self.
  - intros j Hj. now apply admit_other.
Qed.

Lemma every_other_request_is_counted_witness :
  store (final (app production sample_deps full_window 1000
                  (request GET "/unknown/path" "10.0.0.1"))) !! "10.0.0.1"
  = Some {| RateLimit.count := 201; RateLimit.windowStart := 0 |}.
Proof.
  destruct (every_other_request_is_counted production sample_deps full_window 1000
              (request GET "/unknown/path" "10.0.0.1"))
    as (_ & Hk & _).
  - reflexivity.
  - exact Hk.
Defined.

(** * The route table *)

Section RouteTable.

Lemma strip_prefix_Some p : forall s rest,
  strip_prefix p s = Some rest -> s = p +:+ rest.
Proof.
  induction p as [|a p IH]; intros s rest; cbn.
  - now intros [= ->].
  - destruct s as [|b s]; [discriminate|].
    destruct (Ascii.eqb_spec a b) as [->|]; [|discriminate].
    intros H. now rewrite (IH _ _ H).
Qed.

Lemma mount_matches_true prefix p :
  mount_matches prefix p = true ->
  exists rest, Js.toLowerCase p = prefix +:+ rest.
Proof.
  unfold mount_matches.
  destruct (strip_prefix prefix (Js.toLowerCase p)) as [rest|] eqn:E; [|discriminate].
  intros _. exists rest. now apply strip_prefix_Some.
Qed.

Lemma trim_slash_eq : forall q s,
  trim_slash q = s -> q = s \/ q = s +:+ "/".
Proof.
  induction q as [|a q IH]; intros s; [intros <-; now left|].
  destruct q as [|b q'].
  - cbn. destruct (Ascii.eqb_spec a "/") as [->|]; intros <-; [now right|now left].
  - change (trim_slash (String a (String b q')))
      with (String a (trim_slash (String b q'))).
    intros <-. destruct (IH _ eq_refl) as [H|H].
    + left. exact (f_equal (String a) H).
    + right. exact (f_equal (String a) H).
Qed.

Lemma route_matches_true pat p :
  route_matches pat p = true ->
  Js.toLowerCase p = trim_slash pat \/ Js.toLowerCase p = trim_slash pat +:+ "/".
Proof.
  unfold route_matches. intros H. apply String.eqb_eq in H.
  now apply trim_slash_eq.
Qed.

(** What a lower-cased path looks like when a group's matcher takes it. *)
Lemma selects_shape g p :
  selects g p = true ->
  match g with
  | Root => Js.toLowerCase p = "" \/ Js.toLowerCase p = "/"
  | Health => Js.toLowerCase p = "/health" \/ Js.toLowerCase p = "/health/"
  | Auth => exists rest, Js.toLowerCase p = "/auth" +:+ rest
  | Chat => exists rest, Js.toLowerCase p = "/api/chat" +:+ rest
  | Messages => exists rest, Js.toLowerCase p = "/api/messages" +:+ rest
  | Static => exists rest, Js.toLowerCase p = "/public" +:+ rest
  end.
Proof.
  destruct g; cbn [selects]; intros H;
    first [ apply mount_matches_true in H | apply route_matches_true in H ];
    exact H.
Qed.

Lemma selects_unique g1 g2 p :
  selects g1 p = true -> selects g2 p = true -> g1 = g2.
Proof.
  intros H1 H2. apply selects_shape in H1. apply selects_shape in H2.
  destruct g1, g2; try reflexivity; exfalso;
    repeat match goal with
           | H : _ \/ _ |- _ => destruct H as [H|H]
           | H : exists _, _ |- _ => destruct H as [? H]
           end;
    rewrite H1 in H2; cbn in H2; discriminate H2.
Qed.

Lemma selects_other g g' p :
  selects g p = true -> g <> g' -> selects g' p = false.
Proof.
  intros H Hne. destruct (selects g' p) eqn:E; [|reflexivity].
  now destruct Hne; apply (selects_unique g g' p).
Qed.

End RouteTable.

(** X6. The route table is unambiguous: no path is taken by the matchers
    of two different groups ([/], [/health], [/auth], [/api/chat],
    [/api/messages], [/public]), in any letter case and with or without
    a trailing slash. *)
Theorem route_table_unambiguous (g1 g2 : Group) (p : string) :
  selects g1 p = true -> selects g2 p = true -> g1 = g2.
Proof.
  intros H1 H2. apply selects_shape in H1. apply selects_shape in H2.
  destruct g1, g2; try reflexivity; exfalso;
    repeat match goal with
           | H : _ \/ _ |- _ => destruct H as [H|H]
           | H : exists _, _ |- _ => destruct H as [? H]
           end;
    rewrite H1 in H2; cbn in H2; discriminate H2.
Qed.

Lemma route_table_unambiguous_witness :
  selects Chat "/API/Chat/42" = true /\ Chat = Chat.
Proof.
  split; [reflexivity|].
  apply (route_table_unambiguous Chat Chat "/API/Chat/42"); reflexivity.
Defined.

(** * The course of an admitted request *)

Section Course.

Variable cfg : Config.
Variable d : Deps.

Lemma use_hit prefix g h rest c :
  mount_matches prefix (path (req c)) = true ->
  dispatch (use_at prefix g h :: rest) None c =
    match h (req c) with
    | Respond s b => Finished (send s b (emit (Enter g) c))
    | Forward e => dispatch rest (Some e) (emit (Enter g) c)
    | PassOn => dispatch rest None (emit (Enter g) c)
    end.
Proof.
  intros H. cbn. rewrite H. unfold run_handler. now destruct (h (req c)).
Qed.

(** The two parsers let a request through when there is nothing for them
    to refuse; at most they fill in its body. *)
Lemma parsers_pass c :
  refused (kb 16) (req c) = false ->
  exists c1,
    req c1 = req c /\ trace c1 = trace c /\ resHeaders c1 = resHeaders c /\
    forall rest,
      dispatch (body_parser (runtime d) JsonBody (kb 16)
                :: body_parser (runtime d) UrlencodedBody (kb 16) :: rest)
        None c = dispatch rest None c1.
Proof.
  unfold refused. intros Href.
  destruct (bodyType (req c)) eqn:Hty.
  - exists c. repeat split. intros rest.
    now rewrite !parser_other by (rewrite Hty; discriminate).
  - apply orb_false_iff in Href as [Hlen Hsyn].
    destruct (bodySyntaxError (req c)) eqn:Hs; [discriminate|].
    exists (with_parsed c). repeat split. intros rest.
    rewrite parser_accepts by assumption.
    now rewrite parser_other by (cbn; rewrite Hty; discriminate).
  - apply orb_false_iff in Href as [Hlen Hsyn].
    destruct (bodySyntaxError (req c)) eqn:Hs; [discriminate|].
    exists (with_parsed c). repeat split. intros rest.
    rewrite parser_other by (rewrite Hty; discriminate).
    now rewrite parser_accepts by assumption.
  - exists c. repeat split. intros rest.
    now rewrite !parser_other by (rewrite Hty; discriminate).
Qed.

(** A body one of the parsers refuses takes the request straight to the
    error-handling stage. *)
Lemma parsers_refuse c :
  refused (kb 16) (req c) = true ->
  exists msg,
    (msg = "request entity too large" /\ kb 16 < bodyLength (req c) \/
     bodySyntaxError (req c) = Some msg /\ bodyLength (req c) <= kb 16) /\
    dispatch (downstream cfg d) None c =
      Finished (handle_error cfg d (parser_error (runtime d) msg) c).
Proof.
  unfold refused. intros Href.
  assert (Hty : bodyType (req c) = JsonBody \/ bodyType (req c) = UrlencodedBody)
    by (destruct (bodyType (req c)); try discriminate; auto).
  destruct (kb 16 <? bodyLength (req c)) eqn:Hlen.
  - exists "request entity too large". split; [left; split; [reflexivity|now apply Z.ltb_lt]|].
    apply downstream_too_large; [exact Hty|now apply Z.ltb_lt].
  - destruct (bodySyntaxError (req c)) as [msg|] eqn:Hs;
      [|destruct Hty as [E|E]; rewrite E in Href; discriminate].
    exists msg. split; [right; split; [reflexivity|now apply Z.ltb_ge]|].
    rewrite <- downstream_error.
    unfold downstream, app_stack, app_stack_with. cbn [drop].
    assert (Hfail : forall ty rest c0, req c0 = req c -> bodyType (req c) = ty ->
              dispatch (body_parser (runtime d) ty (kb 16) :: rest) None c0 =
              dispatch rest (Some (parser_error (runtime d) msg)) c0).
    { intros ty rest c0 Hc0 E. cbn. rewrite Hc0.
      destruct (decide (bodyType (req c) = ty)); [|contradiction].
      now rewrite Hlen, Hs. }
    destruct Hty as [E|E].
    + now rewrite (Hfail JsonBody) by (reflexivity || assumption).
    + rewrite parser_other by (rewrite E; discriminate).
      now rewrite (Hfail UrlencodedBody) by (reflexivity || assumption).
Qed.

(** The state in which the routes see an admitted request. *)
Lemma routes_reached st t r :
  at_root r = false ->
  verdict d limiter_options st t r = RateLimit.Allowed ->
  refused (kb 16) r = false -> method r <> OPTIONS ->
  exists c,
    req c = r /\ trace c = [] /\
    resHeaders c =
      cors_headers (policy (http_cors cfg))
        (resHeaders (counted limiter_options (keyGenerator d r) (arrive st t r))) /\
    app cfg d st t r =
      dispatch (drop 5 (downstream cfg d)) None c.
Proof.
  intros Hroot Hv Href Hm.
  change (app cfg d st t r) with (app_with cfg d limiter_options st t r).
  rewrite (app_admitted cfg d _ st t r Hroot Hv).
  destruct (parsers_pass (counted limiter_options (keyGenerator d r) (arrive st t r)) Href)
    as (c1 & Hreq & Htr & Hh & Hgo).
  unfold downstream, app_stack, app_stack_with. cbn [drop]. rewrite Hgo.
  rewrite cors_passes by now rewrite Hreq.
  rewrite !pass_through_next.
  eexists. split; [|split; [|split; [|reflexivity]]].
  - exact Hreq.
  - exact Htr.
  - cbn [resHeaders with_headers]. now rewrite Hh.
Qed.

Lemma routes_error e c :
  dispatch (drop 5 (downstream cfg d)) (Some e) c = Finished (handle_error cfg d e c).
Proof. rewrite <- downstream_error. reflexivity. Qed.

Lemma routes_error_after n e c :
  (n <= 5)%nat ->
  dispatch (drop n (drop 5 (downstream cfg d))) (Some e) c =
    Finished (handle_error cfg d e c).
Proof.
  intros Hn. rewrite <- downstream_error.
  do 6 (destruct n as [|n]; [reflexivity|]). lia.
Qed.

End Course.

(** X7. An admitted request under one of the four mounted prefixes is
    offered to the router of that prefix and to no other handler, with
    the request unchanged. What the router does decides the outcome:
    its response is the response; an error it forwards goes to the
    error-handling stage, past the routers registered after it; if it
    passes the request on, no other layer answers and the request is
    left to the framework's final handler. *)
Theorem mounted_request_reaches_its_router (cfg : Config) (d : Deps)
    (st : gmap string RateLimit.RateWindow) (t : Z) (r : Request)
    (g : Group) (h : Request -> Reply) :
  router_of d g = Some h ->
  selects g (path r) = true ->
  verdict d limiter_options st t r = RateLimit.Allowed ->
  refused (kb 16) r = false ->
  method r <> OPTIONS ->
  exists c,
    req c = r /\ trace c = [Enter g] /\
    app cfg d st t r =
      match h r with
      | Respond s b => Finished (send s b c)
      | Forward e => Finished (handle_error cfg d e c)
      | PassOn => Unhandled None c
      end.
Proof.
  intros Hrouter Hsel Hv Href Hm.
  assert (Hother : forall g', g <> g' -> selects g' (path r) = false)
    by (intros g' Hne; now apply (selects_other g g')).
  assert (Hroot : at_root r = false).
  { assert (Hr : route_matches "/" (path r) = false)
      by (apply (Hother Root); intros ->; discriminate Hrouter).
    unfold at_root. rewrite Hr. apply andb_false_r. }
  destruct (routes_reached cfg d st t r Hroot Hv Href Hm)
    as (c & Hreq & Htr & _ & ->).
  exists (emit (Enter g) c). split; [exact Hreq|].
  split; [cbn [trace emit]; now rewrite Htr|].
  unfold downstream, app_stack, app_stack_with. cbn [drop].
  assert (Hhealth : route_matches "/health" (path (req c)) = false).
  { rewrite Hreq. apply (Hother Health). intros ->. discriminate Hrouter. }
  rewrite get_miss by (rewrite Hhealth; apply andb_false_r).
  destruct g; try discriminate Hrouter; injection Hrouter as <-;
    pose proof (Hother Auth) as Ha; pose proof (Hother Chat) as Hc;
    pose proof (Hother Messages) as Hms; pose proof (Hother Static) as Hp;
    cbn [selects] in Hsel, Ha, Hc, Hms, Hp;
    rewrite ?use_miss by (rewrite Hreq; auto);
    rewrite use_hit by (now rewrite Hreq);
    rewrite Hreq;
    match goal with
    | |- context [match ?x with _ => _ end] => destruct x as [s b|e|]
    end;
    try reflexivity;
    try (unfold use_at; rewrite ?dispatch_skip; cbn [dispatch];
         now rewrite errorHandler_ends);
    rewrite ?use_miss by (cbn [req emit]; rewrite Hreq; auto);
    reflexivity.
Qed.

Lemma mounted_request_reaches_its_router_witness :
  exists c,
    app production guarded_deps ∅ 1000 login_request = Finished c /\
    entered (trace c) = [Auth] /\
    exists hs,
      sent (trace c) =
        [{| status := 401; body := Envelope UNAUTHORIZED "Invalid credentials";
            headers := hs |}].
Proof.
  destruct (mounted_request_reaches_its_router production guarded_deps ∅ 1000
              login_request Auth (authRoutes guarded_deps))
    as (c & Hreq & Htr & Ho).
  - reflexivity.
  - reflexivity.
  - reflexivity.
  - reflexivity.
  - discriminate.
  - exists (handle_error production guarded_deps
              (Typed UNAUTHORIZED bad_credentials) c).
    split; [exact Ho|].
    rewrite handle_error_typed, Htr. split; [reflexivity|].
    eexists. reflexivity.
Defined.

Section Cors.

Variable cfg : Config.
Variable d : Deps.

Lemma cors_headers_allows h :
  allows (corsUrl cfg) (cors_headers (policy (http_cors cfg)) h).
Proof.
  unfold allows, cors_headers. cbn. split.
  - rewrite !lookup_insert_ne by discriminate. apply lookup_insert_eq.
  - apply lookup_insert_eq.
Qed.

Lemma opened_emit u e c :
  match e with Send r => allows u (headers r) | _ => True end ->
  opened u c -> opened u (emit e c).
Proof.
  intros He [Hh Hs]. split; [exact Hh|].
  cbn [trace emit]. rewrite sent_app. apply Forall_app. split; [exact Hs|].
  destruct e; cbn; [constructor..|].
  constructor; [exact He|constructor].
Qed.

Lemma opened_send u s b c : opened u c -> opened u (send s b c).
Proof. intros H. apply opened_emit; [apply H|exact H]. Qed.

Lemma opened_route u (b : bool) g h c :
  opened u c ->
  step_ok (fun _ => opened u) (opened u) (if b then run_handler g h c else Next c).
Proof.
  intros Hc. destruct b; [|exact Hc]. unfold run_handler.
  assert (opened u (emit (Enter g) c)) by now apply opened_emit.
  destruct (h (req c)); cbn; [now apply opened_send|assumption..].
Qed.

Lemma opened_error_stage u e c :
  opened u c -> opened u (handle_error cfg d e c).
Proof.
  intros Hc. unfold handle_error, errorHandler. destruct e as [ty i|i].
  - destruct (decide _); [apply opened_emit; [exact Logic.I|]|];
      now apply opened_send.
  - assert (opened u (console_error (log_line i (req c)) c))
      by (apply opened_emit; [exact Logic.I|assumption]).
    destruct (String.eqb _ _); now apply opened_send.
Qed.

(** Behind the CORS layer every answer goes out with the headers it
    set. *)
Lemma routes_opened u :
  Forall (layer_ok (fun _ => opened u) (opened u)) (drop 5 (downstream cfg d)).
Proof.
  unfold downstream, app_stack, app_stack_with. cbn [drop].
  repeat (apply List.Forall_cons); try apply List.Forall_nil.
  - intros c Hc. now apply opened_route.
  - intros c Hc. now apply opened_route.
  - intros c Hc. now apply opened_route.
  - intros c Hc. now apply opened_route.
  - intros c Hc. now apply opened_route.
  - intros e c Hc. rewrite errorHandler_ends. now apply opened_error_stage.
Qed.

(** The preflight answer of the CORS layer. *)
Lemma preflight_answer st t r :
  method r = OPTIONS ->
  verdict d limiter_options st t r = RateLimit.Allowed ->
  refused (kb 16) r = false ->
  exists c hs,
    app cfg d st t r = Finished c /\
    trace c = [Send {| status := 200; body := Text ""; headers := hs |}] /\
    allows (corsUrl cfg) hs.
Proof.
  intros Hm Hv Href.
  assert (Hroot : at_root r = false) by (unfold at_root; now rewrite Hm).
  change (app cfg d st t r) with (app_with cfg d limiter_options st t r).
  rewrite (app_admitted cfg d _ st t r Hroot Hv).
  destruct (parsers_pass d (counted limiter_options (keyGenerator d r) (arrive st t r)) Href)
    as (c1 & Hreq & Htr & Hh & Hgo).
  unfold downstream, app_stack, app_stack_with. cbn [drop]. rewrite Hgo.
  cbn [dispatch cors]. rewrite Hreq. cbn [req arrive counted with_headers with_store].
  rewrite Hm. eexists. eexists. split; [reflexivity|].
  cbn [trace send emit with_headers]. rewrite Htr. split; [reflexivity|].
  cbn [resHeaders with_headers]. unfold allows.
  rewrite !(lookup_insert_ne _ "Access-Control-Allow-Methods") by discriminate.
  apply cors_headers_allows.
Qed.

End Cors.

(** X8. The health route answers an admitted [GET] or [HEAD] of
    [/health] with status 200 and its fixed text, and is the only
    handler invoked; the response carries what the limiter and the CORS
    layer set. For any other method (a preflight apart) the path is not
    answered by any layer. *)
Theorem health_route_answers (cfg : Config) (d : Deps)
    (st : gmap string RateLimit.RateWindow) (t : Z) (r : Request) :
  route_matches "/health" (path r) = true ->
  verdict d limiter_options st t r = RateLimit.Allowed ->
  refused (kb 16) r = false ->
  method r <> OPTIONS ->
  exists c,
    trace c = [] /\
    resHeaders c =
      cors_headers (policy (http_cors cfg))
        (RateLimit.setHeaders limiter_options t
           (RateLimit.step limiter_options t (st !! keyGenerator d r)).2 ∅) /\
    app cfg d st t r =
      if is_get (method r)
      then Finished (send 200 (Text healthy) (emit (Enter Health) c))
      else Unhandled None c.
Proof.
  intros Hsel Hv Href Hm.
  assert (Hother : forall g', Health <> g' -> selects g' (path r) = false)
    by (intros g' Hne; now apply (selects_other Health g')).
  assert (Hr : route_matches "/" (path r) = false)
    by (now apply (Hother Root)).
  assert (Hroot : at_root r = false)
    by (unfold at_root; rewrite Hr; apply andb_false_r).
  destruct (routes_reached cfg d st t r Hroot Hv Href Hm)
    as (c & Hreq & Htr & Hh & ->).
  exists c. split; [exact Htr|]. split; [exact Hh|].
  unfold downstream, app_stack, app_stack_with. cbn [drop].
  pose proof (Hother Auth) as Ha; pose proof (Hother Chat) as Hc;
    pose proof (Hother Messages) as Hms; pose proof (Hother Static) as Hp.
  cbn [selects] in Ha, Hc, Hms, Hp.
  destruct (is_get (method r)) eqn:Hget.
  - rewrite get_hit by (rewrite Hreq, Hget, Hsel; reflexivity). reflexivity.
  - rewrite get_miss by (rewrite Hreq, Hget; reflexivity).
    rewrite !use_miss by (rewrite Hreq; auto). reflexivity.
Qed.

Lemma health_route_answers_witness :
  exists c,
    trace c = [] /\
    app production sample_deps ∅ 1000 (request GET "/Health/" "10.0.0.1")
      = Finished (send 200 (Text healthy) (emit (Enter Health) c)).
Proof.
  destruct (health_route_answers production sample_deps ∅ 1000
              (request GET "/Health/" "10.0.0.1"))
    as (c & Htr & _ & Ho).
  - reflexivity.
  - reflexivity.
  - reflexivity.
  - discriminate.
  - exists c. split; [exact Htr|exact Ho].
Defined.

(** X9. Every admitted [OPTIONS] request whose body the parsers do not
    refuse is answered by the CORS layer itself, whatever its path: the
    answer has status 200 (the configured [optionsSuccessStatus]) and an
    empty body, carries the allowed origin and the credentials flag, and
    no route handler is invoked. *)
Theorem preflight_is_answered_by_cors (cfg : Config) (d : Deps)
    (st : gmap string RateLimit.RateWindow) (t : Z) (r : Request) :
  method r = OPTIONS ->
  verdict d limiter_options st t r = RateLimit.Allowed ->
  refused (kb 16) r = false ->
  exists c hs,
    app cfg d st t r = Finished c /\
    trace c = [Send {| status := 200; body := Text ""; headers := hs |}] /\
    hs !! "Access-Control-Allow-Origin" = Some (corsUrl cfg) /\
    hs !! "Access-Control-Allow-Credentials" = Some "true".
Proof.
  intros Hm Hv Href.
  destruct (preflight_answer cfg d st t r Hm Hv Href) as (c & hs & Ho & Htr & Ha & Hc).
  exists c, hs. now repeat split.
Qed.

Lemma preflight_is_answered_by_cors_witness :
  exists c hs,
    app production guarded_deps ∅ 1000 (request OPTIONS "/auth/login" "10.0.0.1")
      = Finished c /\
    trace c = [Send {| status := 200; body := Text ""; headers := hs |}] /\
    hs !! "Access-Control-Allow-Origin" = Some "https://chat.example".
Proof.
  destruct (preflight_is_answered_by_cors production guarded_deps ∅ 1000
              (request OPTIONS "/auth/login" "10.0.0.1"))
    as (c & hs & Ho & Htr & Ha & _); [reflexivity..|].
  exists c, hs. now repeat split.
Defined.

(** X10. Once a request that is not for the root route has been admitted
    and its body let through, every response the application sends for
    it (from the health route, a router, the static files, the preflight
    or the error-handling stage) carries the allowed origin of the
    configuration and the credentials flag. *)
Theorem cors_headers_behind_parsers (cfg : Config) (d : Deps)
    (st : gmap string RateLimit.RateWindow) (t : Z) (r : Request)
    (resp : Response) :
  at_root r = false ->
  verdict d limiter_options st t r = RateLimit.Allowed ->
  refused (kb 16) r = false ->
  resp ∈ sent (trace (final (app cfg d st t r))) ->
  headers resp !! "Access-Control-Allow-Origin" = Some (corsUrl cfg) /\
  headers resp !! "Access-Control-Allow-Credentials" = Some "true".
Proof.
  intros Hroot Hv Href Hin.
  destruct (decide (method r = OPTIONS)) as [Hm|Hm].
  - destruct (preflight_answer cfg d st t r Hm Hv Href) as (c & hs & Ho & Htr & Ha).
    rewrite Ho in Hin. cbn [final] in Hin. rewrite Htr in Hin.
    apply list_elem_of_singleton in Hin. subst resp. exact Ha.
  - destruct (routes_reached cfg d st t r Hroot Hv Href Hm)
      as (c & Hreq & Htr & Hh & Ho).
    rewrite Ho in Hin.
    assert (Hc : opened (corsUrl cfg) c).
    { split; [rewrite Hh; apply cors_headers_allows|]. rewrite Htr. constructor. }
    pose proof (dispatch_ok _ _ _ (routes_opened cfg d (corsUrl cfg)) None c Hc) as H.
    assert (Hfin : opened (corsUrl cfg)
                     (final (dispatch (drop 5 (downstream cfg d)) None c)))
      by (destruct (dispatch (drop 5 (downstream cfg d)) None c); exact H).
    destruct Hfin as [_ Hall]. rewrite List.Forall_forall in Hall.
    apply list_elem_of_In in Hin. exact (Hall resp Hin).
Qed.

Lemma cors_headers_behind_parsers_witness :
  headers (raw 200 healthy health_ctx) !! "Access-Control-Allow-Origin"
    = Some "https://chat.example".
Proof.
  destruct (cors_headers_behind_parsers production sample_deps ∅ 1000
              (request GET "/health" "10.0.0.1") (raw 200 healthy health_ctx))
    as [Ha _]; [reflexivity..| |exact Ha].
  vm_compute. constructor.
Defined.

(** The limiter's own headers do not include the CORS ones. *)
Lemma counted_no_cors k st t r :
  resHeaders (counted limiter_options k (arrive st t r))
    !! "Access-Control-Allow-Origin" = None.
Proof.
  unfold counted. cbn.
  rewrite !lookup_insert_ne by discriminate. apply lookup_empty.
Qed.

Lemma retry_after_no_cors k st t r :
  resHeaders (retry_after limiter_options k (arrive st t r))
    !! "Access-Control-Allow-Origin" = None.
Proof.
  unfold retry_after. cbn [resHeaders with_headers].
  rewrite lookup_insert_ne by discriminate. apply counted_no_cors.
Qed.

(** X11. Errors raised ahead of the CORS layer are answered without its
    headers: the 429 of a rejected request and the 500 of a request whose
    body a parser refuses carry no [Access-Control-Allow-Origin]. *)
Theorem early_errors_lack_cors_headers (cfg : Config) (d : Deps)
    (st : gmap string RateLimit.RateWindow) (t : Z) (r : Request) :
  at_root r = false ->
  verdict d limiter_options st t r = RateLimit.Rejected \/
  refused (kb 16) r = true ->
  exists c resp,
    app cfg d st t r = Finished c /\
    sent (trace c) = [resp] /\
    entered (trace c) = [] /\
    status resp =
      match verdict d limiter_options st t r with
      | RateLimit.Rejected => 429
      | RateLimit.Allowed => 500
      end /\
    headers resp !! "Access-Control-Allow-Origin" = None.
Proof.
  intros Hroot Hcase.
  change (app cfg d st t r) with (app_with cfg d limiter_options st t r).
  destruct (verdict d limiter_options st t r) eqn:Hv.
  - destruct Hcase as [Hcase|Href]; [discriminate|].
    rewrite (app_admitted cfg d _ st t r Hroot Hv).
    destruct (parsers_refuse cfg d
                (counted limiter_options (keyGenerator d r) (arrive st t r)) Href)
      as (msg & _ & ->).
    eexists. eexists. split; [reflexivity|].
    unfold parser_error. rewrite handle_error_untyped, sent_app, entered_app.
    split; [reflexivity|]. split; [reflexivity|].
    destruct (String.eqb _ _); (split; [reflexivity|]);
      exact (counted_no_cors (keyGenerator d r) st t r).
  - rewrite (app_rejected cfg d _ st t r Hroot Hv).
    eexists. eexists. split; [reflexivity|].
    unfold RateLimitError. rewrite handle_error_typed, sent_app, entered_app.
    split; [reflexivity|]. split; [reflexivity|]. split; [reflexivity|].
    exact (retry_after_no_cors (keyGenerator d r) st t r).
Qed.

Lemma early_errors_lack_cors_headers_witness :
  exists c resp,
    app production sample_deps full_window 1000 (request GET "/health" "10.0.0.1")
      = Finished c /\
    sent (trace c) = [resp] /\ status resp = 429 /\
    headers resp !! "Access-Control-Allow-Origin" = None.
Proof.
  destruct (early_errors_lack_cors_headers production sample_deps full_window 1000
              (request GET "/health" "10.0.0.1"))
    as (c & resp & Ho & Hs & _ & Hst & Hh).
  - reflexivity.
  - left. vm_compute. reflexivity.
  - exists c, resp. repeat split; assumption.
Defined.

(** X12. A JSON or urlencoded body within the limit that its parser
    cannot read stops the request at the parser: no route handler is
    invoked and the body is not filled in; the parser's complaint is
    written to the console with the request's path, method and address,
    and the client gets status 500, which outside development mode is
    the generic [INTERNAL] envelope without the parser's complaint. *)
Theorem malformed_body_is_answered_500 (cfg : Config) (d : Deps)
    (st : gmap string RateLimit.RateWindow) (t : Z) (r : Request)
    (msg : string) :
  bodyType r = JsonBody \/ bodyType r = UrlencodedBody ->
  bodyLength r <= 16384 ->
  bodySyntaxError r = Some msg ->
  at_root r = false ->
  verdict d limiter_options st t r = RateLimit.Allowed ->
  exists c resp,
    app cfg d st t r = Finished c /\
    parsedBody c = false /\ entered (trace c) = [] /\
    logged (trace c) =
      [log_line {| message := msg; stack := Js.stack_trace (runtime d) msg |} r] /\
    sent (trace c) = [resp] /\ status resp = 500 /\
    (environment cfg <> "development" ->
     body resp = Envelope INTERNAL (internalMessage d)).
Proof.
  intros Hty Hlen Hs Hroot Hv.
  assert (Href : refused (kb 16) r = true).
  { unfold refused. rewrite Hs, orb_true_r. now destruct Hty as [-> | ->]. }
  change (app cfg d st t r) with (app_with cfg d limiter_options st t r).
  rewrite (app_admitted cfg d _ st t r Hroot Hv).
  destruct (parsers_refuse cfg d
              (counted limiter_options (keyGenerator d r) (arrive st t r)) Href)
    as (msg' & [[_ Hbig]|[Hs' _]] & ->).
  - cbn [req counted arrive with_headers with_store] in Hbig.
    change (kb 16) with 16384 in Hbig. lia.
  - cbn [req counted arrive with_headers with_store] in Hs'.
    rewrite Hs in Hs'. injection Hs' as <-.
    eexists. eexists. split; [reflexivity|].
    split; [apply small_error_stage|].
    unfold parser_error. rewrite handle_error_untyped. cbn.
    split; [reflexivity|]. split; [reflexivity|]. split; [reflexivity|].
    split; [now destruct (String.eqb _ _)|].
    intros Henv. now rewrite (not_development cfg Henv).
Qed.

Lemma malformed_body_is_answered_500_witness :
  exists c resp,
    app production sample_deps ∅ 1000 broken_json = Finished c /\
    sent (trace c) = [resp] /\ status resp = 500 /\
    body resp = Envelope INTERNAL "Internal error".
Proof.
  destruct (malformed_body_is_answered_500 production sample_deps ∅ 1000
              broken_json "Unexpected end of JSON input")
    as (c & resp & Ho & _ & _ & _ & Hs & Hst & Hb).
  - now left.
  - vm_compute. discriminate.
  - reflexivity.
  - reflexivity.
  - reflexivity.
  - exists c, resp. repeat split; try assumption.
    apply Hb. vm_compute. discriminate.
Defined.
